(** * bitloyal wire layer: the static buffer writer and the network magics

    A shallow embedding of [lib/utils/staticwriter.js] (the statically
    allocated buffer writer), of the packet magic numbers of
    [lib/protocol/networks], and of the framing contract the protocol test
    exercises, together with the properties of the wire-protocol
    specification that concern them.

    Conventions.
    - A JavaScript integer Number is a [Z], with the arithmetic of [Z]: this
      is the arithmetic of the code on safe integers (up to 2^53 - 1 in
      magnitude).  A byte is a [Z] stored modulo 256.
    - A Node [Buffer] is a [list Z]; an element store outside the buffer is
      dropped, as on every typed array.
    - A method is a function from the writer state to an [outcome]: the
      state after the call, or the exception it threw and the state at that
      point. *)

From Stdlib Require Import ZArith Lia List Bool String Ascii.
From stdpp Require Import base list.

Import ListNotations.
Local Open Scope Z_scope.

(** ** Bytes and byte orders *)

Module Bytes.

(** The [k] low bytes of [v], least significant first. *)
Fixpoint le_bytes (k : nat) (v : Z) : list Z :=
  match k with
  | O => []
  | S k' => v mod 256 :: le_bytes k' (v / 256)
  end.

(** The same bytes, most significant first. *)
Definition be_bytes (k : nat) (v : Z) : list Z := rev (le_bytes k v).

(** The number a little-endian byte string denotes. *)
Fixpoint le_decode (bs : list Z) : Z :=
  match bs with
  | [] => 0
  | b :: bs' => b + 256 * le_decode bs'
  end.

Definition be_decode (bs : list Z) : Z := le_decode (rev bs).

(** Two's complement reading of a [k]-byte unsigned number. *)
Definition to_signed (k : nat) (u : Z) : Z :=
  if u <? 256 ^ Z.of_nat k / 2 then u else u - 256 ^ Z.of_nat k.

Definition is_byte (b : Z) : Prop := 0 <= b < 256.

End Bytes.

(** ** The Node Buffer primitives the writer calls

    [Buffer] is the platform's, not the repository's.  The writer passes
    [noAssert = true] to every fixed-width write, so those are modelled as
    the unchecked stores Node performs in that mode: the offset is coerced
    with [>>> 0], each byte is stored with [this[i] = x] (dropped when [i] is
    not an index of the buffer) and the new offset is returned.  Node
    releases that ignore the flag refuse a value outside the type and a
    store outside the buffer with a [RangeError] instead; the two behaviours
    agree on a value of the type written with room for it, which is the use
    the writer is made for.  [copy], [fill] and [write] check their ranges
    in every release and are modelled with their checks. *)

Module Buffer.

(** A buffer is the list of its bytes. *)
Abbreviation t := (list Z).

Definition length (b : t) : Z := Z.of_nat (List.length b).

(** [ToUint32], JavaScript's [x >>> 0]. *)
Definition toUint32 (x : Z) : Z := x mod 2 ^ 32.

(** [x >>> n]. *)
Definition ushr (x n : Z) : Z := Z.shiftr (toUint32 x) n.

(** [b[i] = v] on a [Uint8Array]: [ToUint8 v] is stored at a valid index,
    nothing happens at any other. *)
Definition set (b : t) (i v : Z) : t :=
  if (0 <=? i) && (i <? length b) then <[Z.to_nat i := v mod 256]> b else b.

(** Element-wise store of [bs] from index [i] on; every byte is stored
    with [set]. *)
Definition store (b : t) (i : Z) (bs : list Z) : t :=
  fold_left (fun acc p => set acc (i + Z.of_nat (fst p)) (snd p))
            (combine (seq 0 (List.length bs)) bs) b.

Definition writeUInt8 (b : t) (value offset : Z) : t * Z :=
  let offset := toUint32 offset in
  let b := set b offset value in
  (b, offset + 1).

Definition writeUInt16LE (b : t) (value offset : Z) : t * Z :=
  let offset := toUint32 offset in
  let b := set b offset value in
  let b := set b (offset + 1) (ushr value 8) in
  (b, offset + 2).

Definition writeUInt16BE (b : t) (value offset : Z) : t * Z :=
  let offset := toUint32 offset in
  let b := set b offset (ushr value 8) in
  let b := set b (offset + 1) value in
  (b, offset + 2).

Definition writeUInt32LE (b : t) (value offset : Z) : t * Z :=
  let offset := toUint32 offset in
  let b := set b (offset + 3) (ushr value 24) in
  let b := set b (offset + 2) (ushr value 16) in
  let b := set b (offset + 1) (ushr value 8) in
  let b := set b offset value in
  (b, offset + 4).

Definition writeUInt32BE (b : t) (value offset : Z) : t * Z :=
  let offset := toUint32 offset in
  let b := set b offset (ushr value 24) in
  let b := set b (offset + 1) (ushr value 16) in
  let b := set b (offset + 2) (ushr value 8) in
  let b := set b (offset + 3) value in
  (b, offset + 4).

Definition writeInt8 (b : t) (value offset : Z) : t * Z :=
  let offset := toUint32 offset in
  let b := set b offset value in
  (b, offset + 1).

Definition writeInt16LE (b : t) (value offset : Z) : t * Z :=
  let offset := toUint32 offset in
  let b := set b offset value in
  let b := set b (offset + 1) (ushr value 8) in
  (b, offset + 2).

Definition writeInt16BE (b : t) (value offset : Z) : t * Z :=
  let offset := toUint32 offset in
  let b := set b offset (ushr value 8) in
  let b := set b (offset + 1) value in
  (b, offset + 2).

Definition writeInt32LE (b : t) (value offset : Z) : t * Z :=
  let offset := toUint32 offset in
  let b := set b offset value in
  let b := set b (offset + 1) (ushr value 8) in
  let b := set b (offset + 2) (ushr value 16) in
  let b := set b (offset + 3) (ushr value 24) in
  (b, offset + 4).

Definition writeInt32BE (b : t) (value offset : Z) : t * Z :=
  let offset := toUint32 offset in
  let b := set b offset (ushr value 24) in
  let b := set b (offset + 1) (ushr value 16) in
  let b := set b (offset + 2) (ushr value 8) in
  let b := set b (offset + 3) value in
  (b, offset + 4).

(** [adjustOffset] of [Buffer.prototype.slice]: a negative offset counts
    from the end, and the result is clamped to the buffer. *)
Definition adjustOffset (offset len : Z) : Z :=
  if offset <? 0 then Z.max (offset + len) 0
  else if offset <? len then offset
  else len.

(** [b.slice(start, end)]. *)
Definition slice (b : t) (start end_ : Z) : t :=
  let start := adjustOffset start (length b) in
  let end_ := adjustOffset end_ (length b) in
  let newLength := if start <? end_ then end_ - start else 0 in
  take (Z.to_nat newLength) (drop (Z.to_nat start) b).

(** [src.copy(target, targetStart, sourceStart, sourceEnd)]: a negative
    index, and a [sourceStart] past the end of the source, is a [RangeError]
    ([None]); a start at or past the end of the target and an empty source
    range copy nothing; otherwise as many bytes as fit are moved. *)
Definition copy (src target : t) (targetStart sourceStart sourceEnd : Z)
  : option t :=
  if (targetStart <? 0) || (sourceStart <? 0) || (length src <? sourceStart)
     || (sourceEnd <? 0)
  then None
  else if (length target <=? targetStart) || (sourceEnd <=? sourceStart)
  then Some target
  else
    let to_copy :=
      Z.min (Z.min (sourceEnd - sourceStart) (length target - targetStart))
            (length src - sourceStart) in
    Some (list_inserts (Z.to_nat targetStart)
            (take (Z.to_nat to_copy) (drop (Z.to_nat sourceStart) src))
            target).

(** [b.fill(val, start, end)] with a number: the byte [val & 255] is laid
    over the range; a range that leaves the buffer is a [RangeError]
    ([None]), an empty range does nothing. *)
Definition fill (b : t) (val start end_ : Z) : option t :=
  if (start <? 0) || (length b <? end_) then None
  else if end_ <=? start then Some b
  else Some (list_inserts (Z.to_nat start)
               (repeat (Z.land val 255) (Z.to_nat (end_ - start))) b).

(** The value of one hexadecimal digit. *)
Definition unhex (c : ascii) : option Z :=
  let n := Z.of_nat (nat_of_ascii c) in
  if (48 <=? n) && (n <=? 57) then Some (n - 48)
  else if (65 <=? n) && (n <=? 70) then Some (n - 55)
  else if (97 <=? n) && (n <=? 102) then Some (n - 87)
  else None.

(** The hex decoder: one byte per digit pair, in the order of the pairs,
    stopping at the first pair that is not two hex digits. *)
Fixpoint hex_decode (s : string) : list Z :=
  match s with
  | String a (String b rest) =>
      match unhex a, unhex b with
      | Some hi, Some lo => (16 * hi + lo) :: hex_decode rest
      | _, _ => []
      end
  | _ => []
  end.

Definition strlen (s : string) : Z := Z.of_nat (String.length s).

Inductive write_error := OutOfBounds.

(** [b.write(s, offset, 'hex')]: the offset is coerced with [>>> 0]; a
    string at an offset past the end is a [RangeError]; otherwise the bytes
    of the complete digit pairs that fit in the rest of the buffer are
    stored (the odd last digit of a string of odd length is ignored). *)
Definition write_hex (b : t) (s : string) (offset : Z) : write_error + t :=
  let offset := toUint32 offset in
  let remaining := length b - offset in
  if (0 <? strlen s) && (remaining <? 0) then inl OutOfBounds
  else if length b <? offset then inl OutOfBounds
  else
    inr (list_inserts (Z.to_nat offset)
           (take (Z.to_nat remaining) (hex_decode s)) b).

(** *** Text encodings

    Strings are strings of characters below U+0100.  The encodings are
    those a caller of the string writes passes: none ([utf8], the default),
    ['ascii'] and ['hex']. *)
Inductive text_encoding := utf8 | ascii | hex.

Definition char_code (c : Ascii.ascii) : Z := Z.of_nat (nat_of_ascii c).

(** UTF-8 of one character: one byte below U+0080, two bytes from there
    on. *)
Definition utf8_char (c : Ascii.ascii) : list Z :=
  let n := char_code c in
  if n <? 128 then [n] else [192 + n / 64; 128 + n mod 64].

(** The bytes a string has in an encoding. *)
Definition encode (s : string) (enc : text_encoding) : list Z :=
  match enc with
  | utf8 => concat (map utf8_char (list_ascii_of_string s))
  | ascii => map char_code (list_ascii_of_string s)
  | hex => hex_decode s
  end.

(** [Buffer.byteLength(s, enc)]: the length of the UTF-8 form, the number
    of characters for ['ascii'], and [s.length >>> 1] for ['hex'], whatever
    the characters are. *)
Definition byteLength (s : string) (enc : text_encoding) : Z :=
  match enc with
  | utf8 => length (encode s utf8)
  | ascii => strlen s
  | hex => Z.shiftr (strlen s) 1
  end.

(** The whole characters of a string whose UTF-8 form fits in [room]
    bytes. *)
Fixpoint utf8_fit (room : nat) (cs : list Ascii.ascii) : list Z :=
  match cs with
  | [] => []
  | c :: cs' =>
      let bs := utf8_char c in
      if (List.length bs <=? room)%nat
      then bs ++ utf8_fit (room - List.length bs) cs'
      else []
  end.

(** [b.write(s, offset, enc)]: as for hex strings, with the bytes of the
    encoding; a UTF-8 write stores whole characters only. *)
Definition write (b : t) (s : string) (offset : Z) (enc : text_encoding)
  : write_error + t :=
  match enc with
  | hex => write_hex b s offset
  | _ =>
      let offset := toUint32 offset in
      let remaining := length b - offset in
      if (0 <? strlen s) && (remaining <? 0) then inl OutOfBounds
      else if length b <? offset then inl OutOfBounds
      else
        let bytes :=
          match enc with
          | utf8 => utf8_fit (Z.to_nat remaining) (list_ascii_of_string s)
          | _ => take (Z.to_nat remaining) (encode s enc)
          end in
        inr (list_inserts (Z.to_nat offset) bytes b)
  end.

End Buffer.

(** ** [lib/crypto/digest] and [lib/utils/encoding] *)

(** The digest module is not among the embedded sources: its hash function
    is a parameter, known only to produce 32 bytes. *)
Class Digest := {
  sha256 : list Z -> list Z;
  sha256_size : forall m, List.length (sha256 m) = 32%nat
}.

(** Modelled from the spec: [digest.hash256] is missing from the sources;
    the checksum is "a cryptographic double-hash (hash-of-hash) over the
    exact payload bytes". *)
Definition hash256 `{Digest} (m : list Z) : list Z := sha256 (sha256 m).

Module encoding.

(** Modelled from the spec: [encoding.writeVarint] is missing from the
    sources.  "values < 0xfd encode as 1 byte; values <= 0xffff encode as
    marker byte 0xfd + 2-byte little-endian; values <= 0xffffffff encode
    as marker 0xfe + 4-byte little-endian; larger values as marker 0xff +
    8-byte little-endian." *)
Definition varint (num : Z) : list Z :=
  if num <? 0xfd then Bytes.le_bytes 1 num
  else if num <=? 0xffff then 0xfd :: Bytes.le_bytes 2 num
  else if num <=? 0xffffffff then 0xfe :: Bytes.le_bytes 4 num
  else 0xff :: Bytes.le_bytes 8 num.

(** Modelled from the spec: the helper is one of the "free functions
    mutating a passed-in buffer position": it stores the encoding at [off]
    and returns the offset after it. *)
Definition writeVarint (dst : Buffer.t) (num off : Z) : Buffer.t * Z :=
  (Buffer.store dst off (varint num),
   off + Z.of_nat (List.length (varint num))).

End encoding.

(** ** The statically allocated buffer writer

    The methods are embedded in the order of the source.  Left out are the
    64-bit writes and [writeVarint2] (their encoders are in
    [lib/utils/encoding]) and the float and double writes. *)

(** The exceptions a call can throw: a failed [assert] with its message, a
    property access on [null], an index the platform refuses. *)
Inductive error :=
| AssertionError (message : option string)
| TypeError
| RangeError.

(** The writer object: [this.data] and [this.written], each [null] ([None])
    once the writer is destroyed. *)
Record StaticWriter := {
  data : option Buffer.t;
  written : option Z
}.

(** What a method call leaves behind. *)
Inductive outcome (A : Type) :=
| Done (a : A) (s : StaticWriter)
| Throw (e : error) (s : StaticWriter).

Arguments Done {A} a s.
Arguments Throw {A} e s.

(** Methods are state transformers that may throw. *)
Definition method (A : Type) : Type := StaticWriter -> outcome A.

Definition ret {A} (a : A) : method A := fun s => Done a s.

Definition bind {A B} (m : method A) (k : A -> method B) : method B :=
  fun s =>
    match m s with
    | Done a s' => k a s'
    | Throw e s' => Throw e s'
    end.

Definition throw {A} (e : error) : method A := fun s => Throw e s.

#[global] Instance method_ret : MRet method := @ret.
#[global] Instance method_bind : MBind method := fun A B k m => bind m k.

(** [assert(cond)] and [assert(cond, message)]. *)
Definition assert (cond : bool) (message : option string) : method unit :=
  if cond then ret tt else throw (AssertionError message).

(** [ToNumber] of the cursor: [null] counts as 0 in arithmetic. *)
Definition num (w : option Z) : Z :=
  match w with
  | Some n => n
  | None => 0
  end.

(** [function StaticWriter(size)]: [Buffer.allocUnsafe(size)] returns [size]
    bytes of unspecified content, here [mem]. *)
Definition create (mem : Buffer.t) : StaticWriter :=
  {| data := Some mem; written := Some 0 |}.

(** A call on [this.data] that returns the new offset. *)
Definition on_data (f : Buffer.t -> Z -> Buffer.t * Z) : method unit :=
  fun s =>
    match data s with
    | None => Throw TypeError s
    | Some d =>
        let '(d', off) := f d (num (written s)) in
        Done tt {| data := Some d'; written := Some off |}
    end.

Definition destroy : method unit :=
  fun _ => Done tt {| data := None; written := None |}.

Definition render (keep : bool) : method Buffer.t :=
  fun s =>
    match data s with
    | None => Throw TypeError s
    | Some d =>
        if decide (written s = Some (Buffer.length d)) then
          if keep then Done d s
          else (destroy ;; ret d) s
        else Throw (AssertionError None) s
    end.

Definition getSize : method (option Z) := fun s => Done (written s) s.

(** The cursor is a JavaScript Number and [+=] is the addition of doubles.
    It is modelled by the addition of integers, which is what the addition
    of doubles computes as long as the operands and the sum are safe
    integers ([Number.isSafeInteger]); the properties of [seek] are stated
    for such values. *)
Definition MAX_SAFE_INTEGER : Z := 2 ^ 53 - 1.

Definition safe (x : Z) : Prop := - MAX_SAFE_INTEGER <= x <= MAX_SAFE_INTEGER.

Definition seek (offset : Z) : method unit :=
  fun s => Done tt {| data := data s; written := Some (num (written s) + offset) |}.

Definition writeU8 (value : Z) : method unit :=
  on_data (fun d off => Buffer.writeUInt8 d value off).

Definition writeU16 (value : Z) : method unit :=
  on_data (fun d off => Buffer.writeUInt16LE d value off).

Definition writeU16BE (value : Z) : method unit :=
  on_data (fun d off => Buffer.writeUInt16BE d value off).

Definition writeU32 (value : Z) : method unit :=
  on_data (fun d off => Buffer.writeUInt32LE d value off).

Definition writeU32BE (value : Z) : method unit :=
  on_data (fun d off => Buffer.writeUInt32BE d value off).

Definition writeU64BN (value : Z) : method unit :=
  assert false (Some "Not implemented."%string).

Definition writeU64BEBN (value : Z) : method unit :=
  assert false (Some "Not implemented."%string).

Definition writeI8 (value : Z) : method unit :=
  on_data (fun d off => Buffer.writeInt8 d value off).

Definition writeI16 (value : Z) : method unit :=
  on_data (fun d off => Buffer.writeInt16LE d value off).

Definition writeI16BE (value : Z) : method unit :=
  on_data (fun d off => Buffer.writeInt16BE d value off).

Definition writeI32 (value : Z) : method unit :=
  on_data (fun d off => Buffer.writeInt32LE d value off).

Definition writeI32BE (value : Z) : method unit :=
  on_data (fun d off => Buffer.writeInt32BE d value off).

Definition writeI64BN (value : Z) : method unit :=
  assert false (Some "Not implemented."%string).

Definition writeI64BEBN (value : Z) : method unit :=
  assert false (Some "Not implemented."%string).

Definition writeVarint (value : Z) : method unit :=
  on_data (fun d off => encoding.writeVarint d value off).

Definition writeVarintBN (value : Z) : method unit :=
  assert false (Some "Not implemented."%string).

Definition writeVarint2BN (value : Z) : method unit :=
  assert false (Some "Not implemented."%string).

Definition writeBytes (value : Buffer.t) : method unit :=
  fun s =>
    if Buffer.length value =? 0 then Done tt s
    else
      match data s with
      | None => Throw TypeError s
      | Some d =>
          match Buffer.copy value d (num (written s)) 0 (Buffer.length value) with
          | None => Throw RangeError s
          | Some d' =>
              Done tt {| data := Some d';
                         written := Some (num (written s) + Buffer.length value) |}
          end
      end.

Definition writeVarBytes (value : Buffer.t) : method unit :=
  writeVarint (Buffer.length value) ;;
  writeBytes value.

Definition copy (value : Buffer.t) (start end_ : Z) : method unit :=
  fun s =>
    let len := end_ - start in
    if len =? 0 then Done tt s
    else
      match data s with
      | None => Throw TypeError s
      | Some d =>
          match Buffer.copy value d (num (written s)) start end_ with
          | None => Throw RangeError s
          | Some d' =>
              Done tt {| data := Some d';
                         written := Some (num (written s) + len) |}
          end
      end.

Definition writeString (value : string) (enc : Buffer.text_encoding)
  : method unit :=
  fun s =>
    if Buffer.strlen value =? 0 then Done tt s
    else
      let size := Buffer.byteLength value enc in
      match data s with
      | None => Throw TypeError s
      | Some d =>
          match Buffer.write d value (num (written s)) enc with
          | inl Buffer.OutOfBounds => Throw RangeError s
          | inr d' =>
              Done tt {| data := Some d';
                         written := Some (num (written s) + size) |}
          end
      end.

(** A [Hash] argument: a buffer, or a hex string. *)
Inductive Hash :=
| HashBuffer (b : Buffer.t)
| HashString (s : string).

Definition writeHash (value : Hash) : method unit :=
  match value with
  | HashBuffer b =>
      assert (Buffer.length b =? 32) None ;;
      writeBytes b
  | HashString str =>
      assert (Buffer.strlen str =? 64) None ;;
      ((fun s =>
          match data s with
          | None => Throw TypeError s
          | Some d =>
              match Buffer.write_hex d str (num (written s)) with
              | inl Buffer.OutOfBounds => Throw RangeError s
              | inr d' =>
                  Done tt {| data := Some d';
                             written := Some (num (written s) + 32) |}
              end
          end) : method unit)
  end.

Definition writeVarString (value : string) (enc : Buffer.text_encoding)
  : method unit :=
  if Buffer.strlen value =? 0 then writeVarint 0
  else
    let size := Buffer.byteLength value enc in
    writeVarint size ;;
    ((fun s =>
        match data s with
        | None => Throw TypeError s
        | Some d =>
            match Buffer.write d value (num (written s)) enc with
            | inl Buffer.OutOfBounds => Throw RangeError s
            | inr d' =>
                Done tt {| data := Some d';
                           written := Some (num (written s) + size) |}
            end
        end) : method unit).

Definition writeNullString (value : string) (enc : Buffer.text_encoding)
  : method unit :=
  writeString value enc ;;
  writeU8 0.

Definition writeChecksum `{Digest} : method unit :=
  fun s =>
    match data s with
    | None => Throw TypeError s
    | Some d =>
        let data_ := Buffer.slice d 0 (num (written s)) in
        let hash := hash256 data_ in
        match Buffer.copy hash d (num (written s)) 0 4 with
        | None => Throw RangeError s
        | Some d' =>
            Done tt {| data := Some d';
                       written := Some (num (written s) + 4) |}
        end
    end.

Definition fill (value size : Z) : method unit :=
  assert (0 <=? size) None ;;
  ((fun s =>
      if size =? 0 then Done tt s
      else
        match data s with
        | None => Throw TypeError s
        | Some d =>
            match Buffer.fill d value (num (written s))
                    (num (written s) + size) with
            | None => Throw RangeError s
            | Some d' =>
                Done tt {| data := Some d';
                           written := Some (num (written s) + size) |}
            end
        end) : method unit).

(** ** The fixed-width integer writes, as a table *)

(** [splice d w bs]: the buffer [d] with [bs] laid over it at index [w];
    what is before [w] and after the bytes stays. *)
Definition splice (d : Buffer.t) (w : Z) (bs : list Z) : Buffer.t :=
  take (Z.to_nat w) d ++ bs ++ drop (Z.to_nat w + List.length bs) d.

(** A live writer: buffer [d], cursor [w]. *)
Definition live (d : Buffer.t) (w : Z) : StaticWriter :=
  {| data := Some d; written := Some w |}.

Inductive int_write :=
| U8 | U16 | U16BE | U32 | U32BE
| I8 | I16 | I16BE | I32 | I32BE.

Definition call_int (op : int_write) : Z -> method unit :=
  match op with
  | U8 => writeU8 | U16 => writeU16 | U16BE => writeU16BE
  | U32 => writeU32 | U32BE => writeU32BE
  | I8 => writeI8 | I16 => writeI16 | I16BE => writeI16BE
  | I32 => writeI32 | I32BE => writeI32BE
  end.

(** The byte width, byte order and signedness each method is documented
    with ("Write uint16le", "Write int32be", ...). *)
Definition width (op : int_write) : nat :=
  match op with
  | U8 | I8 => 1
  | U16 | U16BE | I16 | I16BE => 2
  | U32 | U32BE | I32 | I32BE => 4
  end.

Definition big_endian (op : int_write) : bool :=
  match op with
  | U16BE | U32BE | I16BE | I32BE => true
  | _ => false
  end.

Definition signed (op : int_write) : bool :=
  match op with
  | I8 | I16 | I16BE | I32 | I32BE => true
  | _ => false
  end.

(** The bytes the value has on the wire in that width and order. *)
Definition wire_bytes (op : int_write) (value : Z) : list Z :=
  if big_endian op then Bytes.be_bytes (width op) value
  else Bytes.le_bytes (width op) value.

(** Reading such bytes back as a number of that type. *)
Definition read_back (op : int_write) (bs : list Z) : Z :=
  let u := if big_endian op then Bytes.be_decode bs else Bytes.le_decode bs in
  if signed op then Bytes.to_signed (width op) u else u.

(** The values of the type. *)
Definition in_range (op : int_write) (value : Z) : Prop :=
  if signed op
  then - (256 ^ Z.of_nat (width op) / 2) <= value < 256 ^ Z.of_nat (width op) / 2
  else 0 <= value < 256 ^ Z.of_nat (width op).

(** ** Hex strings *)

(** A string of hexadecimal digits only. *)
Definition is_hex (s : string) : bool :=
  forallb (fun c => match Buffer.unhex c with Some _ => true | None => false end)
          (list_ascii_of_string s).

(** ** The methods as data *)

Inductive bn_write :=
| U64BN | U64BEBN | I64BN | I64BEBN | VarintBN | Varint2BN.

Definition call_bn (op : bn_write) : Z -> method unit :=
  match op with
  | U64BN => writeU64BN | U64BEBN => writeU64BEBN
  | I64BN => writeI64BN | I64BEBN => writeI64BEBN
  | VarintBN => writeVarintBN | Varint2BN => writeVarint2BN
  end.

(** A call of any embedded method but [render]. *)
Inductive call :=
| CGetSize
| CSeek (offset : Z)
| CDestroy
| CInt (op : int_write) (value : Z)
| CBN (op : bn_write) (value : Z)
| CVarint (value : Z)
| CBytes (value : Buffer.t)
| CVarBytes (value : Buffer.t)
| CCopy (value : Buffer.t) (start end_ : Z)
| CHash (value : Hash)
| CChecksum
| CFill (value size : Z).

Definition run_call `{Digest} (c : call) : method unit :=
  match c with
  | CGetSize => getSize ;; mret tt
  | CSeek offset => seek offset
  | CDestroy => destroy
  | CInt op value => call_int op value
  | CBN op value => call_bn op value
  | CVarint value => writeVarint value
  | CBytes value => writeBytes value
  | CVarBytes value => writeVarBytes value
  | CCopy value start end_ => copy value start end_
  | CHash value => writeHash value
  | CChecksum => writeChecksum
  | CFill value size => fill value size
  end.

(** The message of the failed assertion, when the call ended on one. *)
Definition assertion_of {A} (o : outcome A) : option (option string) :=
  match o with
  | Throw (AssertionError message) _ => Some message
  | _ => None
  end.

(** The state a call leaves, however it ended. *)
Definition state_of {A} (o : outcome A) : StaticWriter :=
  match o with
  | Done _ s => s
  | Throw _ s => s
  end.

Definition destroyed : StaticWriter := {| data := None; written := None |}.

(** ** Writes as data *)

(** [clip d w bs]: [bs] laid over [d] at [w], cut at the end of [d]: what
    stores that drop the bytes falling outside the buffer leave. *)
Definition clip (d : Buffer.t) (w : Z) (bs : list Z) : Buffer.t :=
  take (List.length d) (splice d w bs).

(** A call of a method that lays bytes at the cursor. *)
Inductive write :=
| WInt (op : int_write) (value : Z)
| WBytes (value : Buffer.t)
| WCopy (value : Buffer.t) (start end_ : Z)
| WString (value : string) (enc : Buffer.text_encoding)
| WHash (value : Hash)
| WNullString (value : string) (enc : Buffer.text_encoding)
| WChecksum
| WFill (value size : Z).

Definition run_write `{Digest} (x : write) : method unit :=
  match x with
  | WInt op value => call_int op value
  | WBytes value => writeBytes value
  | WCopy value start end_ => copy value start end_
  | WString value enc => writeString value enc
  | WHash value => writeHash value
  | WNullString value enc => writeNullString value enc
  | WChecksum => writeChecksum
  | WFill value size => fill value size
  end.

Fixpoint run_writes `{Digest} (xs : list write) : method unit :=
  match xs with
  | [] => mret tt
  | x :: xs' => run_write x ;; run_writes xs'
  end.

(** A string the encoding has bytes for: any string, but for ['hex'] a
    string of hex digits. *)
Definition text_ok (s : string) (enc : Buffer.text_encoding) : bool :=
  match enc with
  | Buffer.hex => is_hex s
  | _ => true
  end.

(** The arguments a write is meant for: a range inside the source buffer, a
    string the encoding has bytes for, a hash of the right size, a size that
    is not negative. *)
Definition write_ok (x : write) : bool :=
  match x with
  | WCopy value start end_ =>
      (0 <=? start) && (start <=? end_) && (end_ <=? Buffer.length value)
  | WString s enc | WNullString s enc => text_ok s enc
  | WHash (HashBuffer b) => Buffer.length b =? 32
  | WHash (HashString s) => (Buffer.strlen s =? 64) && is_hex s
  | WFill _ size => 0 <=? size
  | _ => true
  end.

(** The bytes a write lays, [before] being the bytes before the cursor. *)
Definition bytes_of `{Digest} (before : list Z) (x : write) : list Z :=
  match x with
  | WInt op value => wire_bytes op value
  | WBytes value => value
  | WCopy value start end_ =>
      take (Z.to_nat (end_ - start)) (drop (Z.to_nat start) value)
  | WString s enc => Buffer.encode s enc
  | WHash (HashBuffer b) => b
  | WHash (HashString s) => Buffer.hex_decode s
  | WNullString s enc => Buffer.encode s enc ++ [0]
  | WChecksum => take 4 (hash256 before)
  | WFill value size => repeat (Z.land value 255) (Z.to_nat size)
  end.

(** The bytes a sequence of writes lays, one write after the other. *)
Fixpoint layout `{Digest} (before : list Z) (xs : list write) : list Z :=
  match xs with
  | [] => []
  | x :: xs' =>
      let bs := bytes_of before x in
      bs ++ layout (before ++ bs) xs'
  end.

(** The size of the buffer of a writer; none once it is destroyed. *)
Definition capacity (s : StaticWriter) : option nat :=
  option_map (@List.length Z) (data s).

(** The unsigned method of the same width and byte order. *)
Definition unsigned_of (op : int_write) : int_write :=
  match op with
  | I8 => U8 | I16 => U16 | I16BE => U16BE | I32 => U32 | I32BE => U32BE
  | _ => op
  end.

(** A string of 64 characters that is not a hex string. *)
Definition not_hex_hash : string :=
  "zz00000000000000000000000000000000000000000000000000000000000000".

(** A frame-like sequence of writes, for running the definitions. *)
Definition sample_writes : list write :=
  [WInt U32 0xecd8e1c4; WNullString "tx" Buffer.ascii; WFill 0 9; WInt U32 3;
   WChecksum; WBytes [1; 2; 3]].

(** ** Packet magic numbers of the configured networks *)

Module network.

Inductive type := main | testnet | regtest | simnet.

Definition types : list type := [main; testnet; regtest; simnet].

Definition magic (n : type) : Z :=
  match n with
  | main => 0xecd8e1c4
  | testnet => 0x69fc86db
  | regtest => 0xdab5bffa
  | simnet => 0x12141c16
  end.

(** The magic field of a frame: 4 bytes, little-endian. *)
Definition magic_field (n : type) : list Z := Bytes.le_bytes 4 (magic n).

End network.

(** ** Framing

    [lib/net/framer] and [lib/net/parser] are exercised by the protocol test
    but are not among the embedded sources. *)

(** The network parameters the framing layer consumes. *)
Record Params := {
  magic : Z;
  maxMessageSize : Z
}.

(** Both parameters are [u32] values. *)
Definition Params_wf (np : Params) : Prop :=
  0 <= magic np < 2 ^ 32 /\ 0 <= maxMessageSize np < 2 ^ 32.

Module Framer.

(** The byte of an ASCII character, and back. *)
Definition byte_of_ascii (c : ascii) : Z := Z.of_nat (nat_of_ascii c).

Definition ascii_bytes (s : string) : list Z :=
  map byte_of_ascii (list_ascii_of_string s).

(** Modelled from the spec: the command field, "fixed 12-byte ASCII
    string, NUL-padded". *)
Definition command_field (cmd : string) : list Z :=
  ascii_bytes cmd ++ repeat 0 (12 - String.length cmd)%nat.

(** Modelled from the spec: [Framer.frame] is missing from the sources.
    "allocate a buffer of exactly 24 + payload.length; write magic, write
    command padded with NUL bytes, write payload.length as a 32-bit value,
    write the 4-byte checksum computed over the payload, append the payload
    verbatim"; a command longer than the field is fatal ([None]).  The
    integer header fields are little-endian. *)
Definition frame `{Digest} (np : Params) (cmd : string) (payload : list Z)
  : option (list Z) :=
  if (12 <? String.length cmd)%nat then None
  else
    Some (Bytes.le_bytes 4 (magic np)
          ++ command_field cmd
          ++ Bytes.le_bytes 4 (Buffer.length payload)
          ++ take 4 (hash256 payload)
          ++ payload).

End Framer.

Module Parser.

(** Modelled from the spec: the fixed 24-byte message header, "magic: u32,
    command: fixed 12-byte ASCII string, NUL-padded, length: u32, checksum:
    u32"; [lib/net/parser] is missing from the sources. *)
Record Header := {
  h_magic : Z;
  h_command : string;
  h_length : Z;
  h_checksum : list Z
}.

(** Modelled from the spec: the framing violations ("bad magic, oversized
    length, checksum mismatch"), fatal for the connection. *)
Inductive framing_error := BadMagic | Oversized | BadChecksum.

Inductive state :=
| AwaitingHeader
| AwaitingPayload (h : Header)
| Failed (e : framing_error).

(** Modelled from the spec: the parser stream state, "an internal
    accumulation buffer holding bytes not yet resolved into a complete frame,
    plus a small state enum". *)
Record t := {
  pending : list Z;
  st : state
}.

Definition fresh : t := {| pending := []; st := AwaitingHeader |}.

(** Modelled from the spec: the command field is "NUL-padded"; reading it
    removes the NULs at its end. *)
Definition unpad (bs : list Z) : list Z :=
  fold_right (fun b acc =>
                match acc with
                | [] => if b =? 0 then [] else [b]
                | _ => b :: acc
                end) [] bs.

Definition ascii_of_byte (b : Z) : ascii := ascii_of_nat (Z.to_nat b).

Definition command_of (field : list Z) : string :=
  string_of_list_ascii (map ascii_of_byte (unpad field)).

(** Modelled from the spec: the wire frame layout, magic at offset 0,
    command at 4, payload length at 16, checksum at 20; the integer fields
    are little-endian. *)
Definition parse_header (bs : list Z) : Header :=
  {| h_magic := Bytes.le_decode (take 4 bs);
     h_command := command_of (take 12 (drop 4 bs));
     h_length := Bytes.le_decode (take 4 (drop 16 bs));
     h_checksum := take 4 (drop 20 bs) |}.

Section Dispatch.

(** The packet type registry: the decoder of each registered command. *)
Context {Packet : Type}.
Variable registry : string -> option (list Z -> option Packet).
Context `{Digest}.
Variable np : Params.

(** Modelled from the spec: what the parser surfaces to its caller, a
    decoded packet, an unrecognized command with its raw payload, a decode
    failure of one message, or a framing failure. *)
Inductive event :=
| EPacket (cmd : string) (payload : Packet)
| EUnrecognized (cmd : string) (raw : list Z)
| EDecodeError (cmd : string) (raw : list Z)
| EFatal (e : framing_error).

(** Modelled from the spec: "look up header.command in the Packet Type
    Registry, decode", for one well-framed payload. *)
Definition dispatch (cmd : string) (raw : list Z) : event :=
  match registry cmd with
  | None => EUnrecognized cmd raw
  | Some decode =>
      match decode raw with
      | Some p => EPacket cmd p
      | None => EDecodeError cmd raw
      end
  end.

(** Modelled from the spec: one turn of the loop of [feed].  [None]
    stops the loop: more data is needed, or the connection has failed. *)
Definition step (p : t) : option (t * list event) :=
  match st p with
  | Failed _ => None
  | AwaitingHeader =>
      if Buffer.length (pending p) <? 24 then None
      else
        let h := parse_header (take 24 (pending p)) in
        if negb (h_magic h =? magic np) then
          Some ({| pending := pending p; st := Failed BadMagic |},
                [EFatal BadMagic])
        else if maxMessageSize np <? h_length h then
          Some ({| pending := pending p; st := Failed Oversized |},
                [EFatal Oversized])
        else
          Some ({| pending := drop 24 (pending p);
                   st := AwaitingPayload h |}, [])
  | AwaitingPayload h =>
      if Buffer.length (pending p) <? h_length h then None
      else
        let payload := take (Z.to_nat (h_length h)) (pending p) in
        if bool_decide (take 4 (hash256 payload) = h_checksum h) then
          Some ({| pending := drop (Z.to_nat (h_length h)) (pending p);
                   st := AwaitingHeader |},
                [dispatch (h_command h) payload])
        else
          Some ({| pending := drop (Z.to_nat (h_length h)) (pending p);
                   st := Failed BadChecksum |},
                [EFatal BadChecksum])
  end.

(** The loop, bounded by [fuel] turns. *)
Fixpoint loop (fuel : nat) (p : t) : t * list event :=
  match fuel with
  | O => (p, [])
  | S fuel' =>
      match step p with
      | None => (p, [])
      | Some (p', evs) =>
          let '(p'', evs') := loop fuel' p' in (p'', evs ++ evs')
      end
  end.

(** Every turn lowers this measure, so [S (measure p)] turns are
    enough for the loop to stop by itself. *)
Definition measure (p : t) : nat :=
  match st p with
  | Failed _ => 0
  | AwaitingHeader => 2 * List.length (pending p)
  | AwaitingPayload _ => 2 * List.length (pending p) + 1
  end.

Definition run (p : t) : t * list event := loop (S (measure p)) p.

Definition append (p : t) (chunk : list Z) : t :=
  {| pending := pending p ++ chunk; st := st p |}.

(** Modelled from the spec: [feed(chunk)] appends the chunk to the
    accumulation buffer and loops while progress is possible. *)
Definition feed (p : t) (chunk : list Z) : t * list event :=
  run (append p chunk).

(** Feeding a sequence of chunks, one call each, collecting the events
    in order. *)
Fixpoint feed_all (p : t) (chunks : list (list Z)) : t * list event :=
  match chunks with
  | [] => (p, [])
  | c :: cs =>
      let '(p', evs) := feed p c in
      let '(p'', evs') := feed_all p' cs in
      (p'', evs ++ evs')
  end.

End Dispatch.

End Parser.

(** ** Test fixtures

    The hash of the simnet genesis block, as [simnet.genesis.hash] spells
    it. *)
Definition simnet_genesis_hash : string :=
  "f67ad7695d9b662a72ff3d8edbbb2de0bfa67b13974bb9910d116d5cbd863e68".

(** Its 32 bytes, digit pair by digit pair. *)
Definition simnet_genesis_bytes : list Z :=
  [0xf6; 0x7a; 0xd7; 0x69; 0x5d; 0x9b; 0x66; 0x2a;
   0x72; 0xff; 0x3d; 0x8e; 0xdb; 0xbb; 0x2d; 0xe0;
   0xbf; 0xa6; 0x7b; 0x13; 0x97; 0x4b; 0xb9; 0x91;
   0x0d; 0x11; 0x6d; 0x5c; 0xbd; 0x86; 0x3e; 0x68].

(** A toy digest, for running the definitions on concrete inputs. *)
Definition sum_digest (m : list Z) : list Z :=
  repeat (fold_right Z.add 7 m mod 256) 32.

Definition sum_Digest : Digest :=
  {| sha256 := sum_digest; sha256_size := fun m => repeat_length _ 32 |}.


(** A registry that knows every command and hands the raw payload over. *)
Definition echo_registry (cmd : string) : option (list Z -> option (list Z)) :=
  Some (fun raw => Some raw).

(** Parameters of the main network with a 32 MiB message limit, and a
    payload one byte above it. *)
Definition main_params : Params :=
  {| magic := network.magic network.main; maxMessageSize := 0x2000000 |}.

Definition oversized_payload : list Z := repeat 0 (Z.to_nat 0x2000001).

(** The command "tx" followed by a NUL character. *)
Definition tx_nul : string :=
  String "t" (String "x" (String Ascii.zero EmptyString)).

(** * Properties *)

(** ** Byte orders *)

Section BytesFacts.
Import Bytes.

Lemma le_bytes_length k v : List.length (le_bytes k v) = k.
Proof. revert v; induction k as [|k IH]; intros v; simpl; [|rewrite IH]; reflexivity. Qed.

Lemma be_bytes_length k v : List.length (be_bytes k v) = k.
Proof. unfold be_bytes. rewrite length_rev. apply le_bytes_length. Qed.

Lemma le_decode_le_bytes k v : le_decode (le_bytes k v) = v mod 256 ^ Z.of_nat k.
Proof.
  revert v; induction k as [|k IH]; intros v.
  - simpl. now rewrite Z.mod_1_r.
  - cbn [le_bytes le_decode]. rewrite IH.
    rewrite Nat2Z.inj_succ, Z.pow_succ_r by lia.
    rewrite Z.rem_mul_r by lia. lia.
Qed.

Lemma be_decode_be_bytes k v : be_decode (be_bytes k v) = v mod 256 ^ Z.of_nat k.
Proof. unfold be_decode, be_bytes. rewrite rev_involutive. apply le_decode_le_bytes. Qed.

Lemma le_bytes_is_byte k v : Forall is_byte (le_bytes k v).
Proof.
  revert v; induction k as [|k IH]; intros v; simpl; constructor; [|apply IH].
  unfold is_byte. apply Z.mod_pos_bound. lia.
Qed.

Lemma to_signed_mod k v :
  (0 < k)%nat ->
  - (256 ^ Z.of_nat k / 2) <= v < 256 ^ Z.of_nat k / 2 ->
  to_signed k (v mod 256 ^ Z.of_nat k) = v.
Proof.
  intros Hk Hv. unfold to_signed.
  assert (Hp : 0 < 256 ^ Z.of_nat k) by (apply Z.pow_pos_nonneg; lia).
  assert (Hev : 256 ^ Z.of_nat k = 2 * (256 ^ Z.of_nat k / 2)).
  { destruct k as [|k]; [lia|].
    rewrite Nat2Z.inj_succ, Z.pow_succ_r by lia.
    replace (256 * 256 ^ Z.of_nat k) with ((128 * 256 ^ Z.of_nat k) * 2) by lia.
    rewrite Z.div_mul by lia. lia. }
  destruct (Z_lt_le_dec v 0) as [Hneg|Hpos].
  - replace (v mod 256 ^ Z.of_nat k) with (v + 256 ^ Z.of_nat k).
    + destruct (Z.ltb_spec (v + 256 ^ Z.of_nat k) (256 ^ Z.of_nat k / 2)); lia.
    + apply Z.mod_unique with (q := -1); lia.
  - rewrite Z.mod_small by lia.
    destruct (Z.ltb_spec v (256 ^ Z.of_nat k / 2)); lia.
Qed.

End BytesFacts.

(** ** Buffer stores *)

Section BufferFacts.
Import Bytes.

Lemma toUint32_small x : 0 <= x < 2 ^ 32 -> Buffer.toUint32 x = x.
Proof. intros Hx. unfold Buffer.toUint32. now apply Z.mod_small. Qed.

Lemma div_mod_mod v a b c :
  0 < a -> 0 < b -> 0 < c ->
  ((v mod (a * (b * c))) / a) mod b = (v / a) mod b.
Proof.
  intros Ha Hb Hc.
  rewrite Z.rem_mul_r by lia.
  rewrite (Z.mul_comm a), Z.div_add by lia.
  rewrite (Z.div_small (v mod a)) by (apply Z.mod_pos_bound; lia).
  rewrite Z.add_0_l.
  rewrite Z.rem_mul_r by lia.
  rewrite (Z.mul_comm b), Z.mod_add by lia.
  apply Z.mod_mod. lia.
Qed.

Lemma ushr_8 v : Buffer.ushr v 8 mod 256 = (v / 256) mod 256.
Proof.
  unfold Buffer.ushr, Buffer.toUint32. rewrite Z.shiftr_div_pow2 by lia.
  change (2 ^ 32) with (256 * (256 * 65536)). change (2 ^ 8) with 256.
  apply div_mod_mod; lia.
Qed.

Lemma ushr_16 v : Buffer.ushr v 16 mod 256 = (v / 256 / 256) mod 256.
Proof.
  unfold Buffer.ushr, Buffer.toUint32. rewrite Z.shiftr_div_pow2 by lia.
  rewrite Z.div_div by lia.
  change (2 ^ 32) with (65536 * (256 * 256)). change (2 ^ 16) with 65536.
  change (256 * 256) with 65536 at 2.
  apply div_mod_mod; lia.
Qed.

Lemma ushr_24 v : Buffer.ushr v 24 mod 256 = (v / 256 / 256 / 256) mod 256.
Proof.
  unfold Buffer.ushr, Buffer.toUint32. rewrite Z.shiftr_div_pow2 by lia.
  rewrite !Z.div_div by lia.
  change (2 ^ 32) with (16777216 * (256 * 1)). change (2 ^ 24) with 16777216.
  change (256 * 256 * 256) with 16777216.
  apply div_mod_mod; lia.
Qed.

(** One element store, seen on a buffer cut at the cursor. *)
Lemma set_splice (pre mid post : list Z) (i : Z) (k : nat) (v : Z) :
  i = Z.of_nat (List.length pre) + Z.of_nat k ->
  (k < List.length mid)%nat ->
  Buffer.set (pre ++ mid ++ post) i v = pre ++ <[k := v mod 256]> mid ++ post.
Proof.
  intros -> Hk. unfold Buffer.set, Buffer.length.
  rewrite !length_app.
  destruct (Z.leb_spec 0 (Z.of_nat (List.length pre) + Z.of_nat k)); [|lia].
  destruct (Z.ltb_spec (Z.of_nat (List.length pre) + Z.of_nat k)
              (Z.of_nat (List.length pre + (List.length mid + List.length post))));
    [|lia].
  cbn [andb].
  replace (Z.to_nat (Z.of_nat (List.length pre) + Z.of_nat k))
    with (List.length pre + k)%nat by lia.
  rewrite insert_app_r. f_equal.
  now rewrite insert_app_l.
Qed.

(** A buffer with room for [n] bytes at [w], cut at the cursor. *)
Lemma room_split (d : Buffer.t) (w : Z) (n : nat) :
  0 <= w -> w + Z.of_nat n <= Buffer.length d ->
  exists mid,
    List.length mid = n /\
    Z.of_nat (List.length (take (Z.to_nat w) d)) = w /\
    d = take (Z.to_nat w) d ++ mid ++ drop (Z.to_nat w + n) d.
Proof.
  intros Hw Hroom. unfold Buffer.length in Hroom.
  exists (take n (drop (Z.to_nat w) d)). split; [|split].
  - rewrite length_take, length_drop. lia.
  - rewrite length_take. lia.
  - rewrite <- drop_drop, !take_drop. reflexivity.
Qed.

Lemma splice_length d w bs :
  0 <= w -> w + Z.of_nat (List.length bs) <= Buffer.length d ->
  List.length (splice d w bs) = List.length d.
Proof.
  intros Hw Hroom. unfold splice, Buffer.length in *.
  rewrite !length_app, length_take, length_drop. lia.
Qed.

Lemma splice_take d w bs :
  0 <= w -> w <= Buffer.length d ->
  take (Z.to_nat w) (splice d w bs) = take (Z.to_nat w) d.
Proof.
  intros Hw Hroom. unfold splice, Buffer.length in *.
  rewrite take_app_le by (rewrite length_take; lia).
  rewrite take_take. f_equal. lia.
Qed.

End BufferFacts.

(** ** Fixed-width integer writes *)

Section IntegerWrites.
Import Bytes.

Lemma wire_bytes_length op v : List.length (wire_bytes op v) = width op.
Proof.
  unfold wire_bytes. destruct (big_endian op);
    [apply be_bytes_length | apply le_bytes_length].
Qed.

Lemma read_back_wire_bytes op v :
  in_range op v -> read_back op (wire_bytes op v) = v.
Proof.
  unfold in_range, read_back, wire_bytes. intros Hv.
  assert (Hu : (if big_endian op
                then be_decode (if big_endian op then be_bytes (width op) v
                                else le_bytes (width op) v)
                else le_decode (if big_endian op then be_bytes (width op) v
                                else le_bytes (width op) v))
               = v mod 256 ^ Z.of_nat (width op)).
  { destruct (big_endian op);
      [apply be_decode_be_bytes | apply le_decode_le_bytes]. }
  rewrite Hu. destruct (signed op).
  - apply to_signed_mod; [destruct op; cbn; lia | exact Hv].
  - now apply Z.mod_small.
Qed.

(** The stores of one write, on a buffer cut at the cursor. *)
Lemma call_int_cut op v (pre mid post : list Z) :
  List.length mid = width op ->
  Z.of_nat (List.length pre) < 2 ^ 32 ->
  call_int op v (live (pre ++ mid ++ post) (Z.of_nat (List.length pre))) =
  Done tt (live (pre ++ wire_bytes op v ++ post)
             (Z.of_nat (List.length pre) + Z.of_nat (width op))).
Proof.
  intros Hlen Hlt.
  destruct op; cbn in Hlen;
    repeat (destruct mid as [|? mid]; try discriminate Hlen);
    unfold call_int, writeU8, writeU16, writeU16BE, writeU32, writeU32BE,
      writeI8, writeI16, writeI16BE, writeI32, writeI32BE, on_data, live;
    cbn [data written num];
    unfold Buffer.writeUInt8, Buffer.writeUInt16LE, Buffer.writeUInt16BE,
      Buffer.writeUInt32LE, Buffer.writeUInt32BE, Buffer.writeInt8,
      Buffer.writeInt16LE, Buffer.writeInt16BE, Buffer.writeInt32LE,
      Buffer.writeInt32BE;
    rewrite toUint32_small by lia;
    repeat first
      [ rewrite (set_splice pre _ post (Z.of_nat (List.length pre)) 0)
          by (rewrite ?length_insert; cbn [List.length]; lia)
      | rewrite (set_splice pre _ post (Z.of_nat (List.length pre) + 1) 1)
          by (rewrite ?length_insert; cbn [List.length]; lia)
      | rewrite (set_splice pre _ post (Z.of_nat (List.length pre) + 2) 2)
          by (rewrite ?length_insert; cbn [List.length]; lia)
      | rewrite (set_splice pre _ post (Z.of_nat (List.length pre) + 3) 3)
          by (rewrite ?length_insert; cbn [List.length]; lia) ];
    cbn [insert list_insert];
    unfold wire_bytes, be_bytes; cbn [big_endian width le_bytes rev app];
    rewrite ?ushr_8, ?ushr_16, ?ushr_24; reflexivity.
Qed.

(** C6.  Every fixed-width integer write ([writeU8], [writeU16],
    [writeU16BE], [writeU32], [writeU32BE] and the signed [writeI8] ...
    [writeI32BE]) on a writer with room at its cursor [w] advances the cursor
    by exactly the byte width of the type and lays the value at [w] in the
    stated byte order: little-endian for the plain methods, big-endian for
    the [BE] ones, two's complement for the signed ones.  The bytes read back
    as the value written, and the bytes before the cursor (those written
    earlier) are unchanged, as are the bytes after the value. *)
Theorem fixed_width_write (op : int_write) (value : Z) (d : Buffer.t) (w : Z) :
  0 <= w ->
  w + Z.of_nat (width op) <= Buffer.length d ->
  Buffer.length d < 2 ^ 32 ->
  call_int op value (live d w)
  = Done tt (live (splice d w (wire_bytes op value))
               (w + Z.of_nat (width op)))
  /\ List.length (wire_bytes op value) = width op
  /\ (in_range op value -> read_back op (wire_bytes op value) = value)
  /\ take (Z.to_nat w) (splice d w (wire_bytes op value))
     = take (Z.to_nat w) d.
Proof.
  intros Hw Hroom Hmax. split; [|split; [|split]].
  - destruct (room_split d w (width op) Hw Hroom) as (mid & Hlen & Hpre & Hd).
    unfold splice. rewrite wire_bytes_length.
    remember (take (Z.to_nat w) d) as pre eqn:Epre.
    remember (drop (Z.to_nat w + width op) d) as post eqn:Epost.
    rewrite Hd, <- Hpre.
    apply call_int_cut; [exact Hlen | lia].
  - apply wire_bytes_length.
  - apply read_back_wire_bytes.
  - apply splice_take; lia.
Qed.

Lemma fixed_width_write_witness :
  (0 <= 1 /\ 1 + Z.of_nat (width I32BE) <= Buffer.length [9; 9; 9; 9; 9; 9]
   /\ Buffer.length [9; 9; 9; 9; 9; 9] < 2 ^ 32)
  /\ writeI32BE (-2) (live [9; 9; 9; 9; 9; 9] 1)
     = Done tt (live [9; 255; 255; 255; 254; 9] 5)
  /\ read_back I32BE [255; 255; 255; 254] = -2.
Proof.
  assert (H1 : 0 <= 1) by lia.
  assert (H2 : 1 + Z.of_nat (width I32BE) <= Buffer.length [9; 9; 9; 9; 9; 9])
    by (vm_compute; easy).
  assert (H3 : Buffer.length [9; 9; 9; 9; 9; 9] < 2 ^ 32) by reflexivity.
  destruct (fixed_width_write I32BE (-2) [9; 9; 9; 9; 9; 9] 1 H1 H2 H3)
    as (Hcall & _ & Hback & _).
  split; [auto|]. split.
  - exact Hcall.
  - apply Hback. vm_compute. split; easy.
Defined.

End IntegerWrites.

(** ** Varints *)

Section Varint.
Import Bytes.

(** The element-wise store, on a buffer cut at the cursor. *)
Lemma store_fold (pre post bs : list Z) :
  forall done mid : list Z,
    List.length mid = List.length bs ->
    fold_left
      (fun acc p =>
         Buffer.set acc (Z.of_nat (List.length pre) + Z.of_nat (fst p)) (snd p))
      (combine (seq (List.length done) (List.length bs)) bs)
      (pre ++ (done ++ mid) ++ post)
    = pre ++ (done ++ map (fun v => v mod 256) bs) ++ post.
Proof.
  induction bs as [|v bs IH]; intros done mid Hlen.
  - destruct mid; [reflexivity | discriminate].
  - destruct mid as [|x mid]; [discriminate|].
    cbn [List.length seq combine fold_left fst snd map].
    rewrite (set_splice pre (done ++ x :: mid) post _ (List.length done))
      by (rewrite ?length_app; cbn [List.length]; lia).
    rewrite insert_app_r_alt, Nat.sub_diag by lia. cbn [insert list_insert].
    replace (done ++ v mod 256 :: mid) with ((done ++ [v mod 256]) ++ mid)
      by (now rewrite <- app_assoc).
    replace (S (List.length done)) with (List.length (done ++ [v mod 256]))
      by (rewrite length_app; cbn; lia).
    rewrite IH by (cbn in Hlen; lia).
    do 2 f_equal. rewrite <- app_assoc. reflexivity.
Qed.

Lemma store_splice (d : Buffer.t) (w : Z) (bs : list Z) :
  0 <= w -> w + Z.of_nat (List.length bs) <= Buffer.length d ->
  Buffer.store d w bs = splice d w (map (fun v => v mod 256) bs).
Proof.
  intros Hw Hroom.
  destruct (room_split d w (List.length bs) Hw Hroom) as (mid & Hlen & Hpre & Hd).
  unfold splice, Buffer.store. rewrite length_map.
  remember (take (Z.to_nat w) d) as pre eqn:Epre.
  remember (drop (Z.to_nat w + List.length bs) d) as post eqn:Epost.
  rewrite Hd, <- Hpre.
  apply (store_fold pre post bs [] mid Hlen).
Qed.

Lemma map_mod_bytes (bs : list Z) :
  Forall is_byte bs -> map (fun v => v mod 256) bs = bs.
Proof.
  induction 1 as [|b bs Hb _ IH]; [reflexivity|].
  cbn [map]. rewrite IH. f_equal. apply Z.mod_small. exact Hb.
Qed.

Lemma varint_is_byte n : Forall is_byte (encoding.varint n).
Proof.
  unfold encoding.varint.
  repeat match goal with
         | |- context [if ?c then _ else _] => destruct c
         end;
    try (constructor; [unfold is_byte; lia |]); apply le_bytes_is_byte.
Qed.

Lemma writeVarint_live (n : Z) (d : Buffer.t) (w : Z) :
  0 <= w ->
  w + Z.of_nat (List.length (encoding.varint n)) <= Buffer.length d ->
  writeVarint n (live d w)
  = Done tt (live (splice d w (encoding.varint n))
               (w + Z.of_nat (List.length (encoding.varint n)))).
Proof.
  intros Hw Hroom. unfold writeVarint, on_data, live, encoding.writeVarint.
  cbn [data written num].
  rewrite store_splice by assumption.
  now rewrite map_mod_bytes by apply varint_is_byte.
Qed.

(** C1.  For every nonnegative integer [n], [writeVarint n] on a writer with
    room at its cursor lays the compact encoding of [n] at the cursor and
    advances the cursor by the length of the encoding: the single byte [n]
    when [n < 0xfd]; the marker [0xfd] and [n] as 2 little-endian bytes when
    [n <= 0xffff]; the marker [0xfe] and [n] as 4 little-endian bytes when
    [n <= 0xffffffff]; the marker [0xff] and [n] as 8 little-endian bytes
    otherwise.  The boundary values 0, 0xfc, 0xfd, 0xffff, 0x10000,
    0xffffffff and 0x100000000, each written to a writer of exactly the
    size of its encoding and rendered, give the documented bytes. *)
Theorem writeVarint_compact :
  (forall (n : Z) (d : Buffer.t) (w : Z),
     0 <= n -> 0 <= w ->
     w + Z.of_nat (List.length (encoding.varint n)) <= Buffer.length d ->
     writeVarint n (live d w)
     = Done tt (live (splice d w (encoding.varint n))
                  (w + Z.of_nat (List.length (encoding.varint n))))
     /\ (n < 0xfd -> encoding.varint n = [n])
     /\ (0xfd <= n <= 0xffff ->
         encoding.varint n = 0xfd :: le_bytes 2 n
         /\ le_decode (le_bytes 2 n) = n)
     /\ (0xffff < n <= 0xffffffff ->
         encoding.varint n = 0xfe :: le_bytes 4 n
         /\ le_decode (le_bytes 4 n) = n)
     /\ (0xffffffff < n ->
         encoding.varint n = 0xff :: le_bytes 8 n
         /\ (n < 2 ^ 64 -> le_decode (le_bytes 8 n) = n)))
  /\ map (fun n =>
            (writeVarint n ;; render false)
              (create (repeat 0 (List.length (encoding.varint n)))))
         [0; 0xfc; 0xfd; 0xffff; 0x10000; 0xffffffff; 0x100000000]
     = map (fun bs => Done bs {| data := None; written := None |})
         [ [0]; [0xfc]; [0xfd; 0xfd; 0x00]; [0xfd; 0xff; 0xff];
           [0xfe; 0x00; 0x00; 0x01; 0x00]; [0xfe; 0xff; 0xff; 0xff; 0xff];
           [0xff; 0x00; 0x00; 0x00; 0x00; 0x01; 0x00; 0x00; 0x00] ].
Proof.
  split; [|vm_compute; reflexivity].
  intros n d w Hn Hw Hroom. split; [now apply writeVarint_live|].
  unfold encoding.varint.
  split; [|split; [|split]]; intros Hr.
  - destruct (Z.ltb_spec n 253); [|lia].
    cbn [le_bytes]. now rewrite Z.mod_small by lia.
  - destruct (Z.ltb_spec n 253); [lia|].
    destruct (Z.leb_spec n 65535); [|lia].
    split; [reflexivity|]. rewrite le_decode_le_bytes.
    apply Z.mod_small. change (256 ^ Z.of_nat 2) with 65536. lia.
  - destruct (Z.ltb_spec n 253); [lia|].
    destruct (Z.leb_spec n 65535); [lia|].
    destruct (Z.leb_spec n 4294967295); [|lia].
    split; [reflexivity|]. rewrite le_decode_le_bytes.
    apply Z.mod_small. change (256 ^ Z.of_nat 4) with 4294967296. lia.
  - destruct (Z.ltb_spec n 253); [lia|].
    destruct (Z.leb_spec n 65535); [lia|].
    destruct (Z.leb_spec n 4294967295); [lia|].
    split; [reflexivity|]. intros Hlt. rewrite le_decode_le_bytes.
    apply Z.mod_small. change (256 ^ Z.of_nat 8) with (2 ^ 64). lia.
Qed.

Lemma writeVarint_compact_witness :
  (0 <= 0x10000 /\ 0 <= 1
   /\ 1 + Z.of_nat (List.length (encoding.varint 0x10000))
      <= Buffer.length [9; 9; 9; 9; 9; 9; 9])
  /\ writeVarint 0x10000 (live [9; 9; 9; 9; 9; 9; 9] 1)
     = Done tt (live [9; 0xfe; 0x00; 0x00; 0x01; 0x00; 9] 6).
Proof.
  assert (H1 : 0 <= 0x10000) by lia.
  assert (H2 : 0 <= 1) by lia.
  assert (H3 : 1 + Z.of_nat (List.length (encoding.varint 0x10000))
               <= Buffer.length [9; 9; 9; 9; 9; 9; 9]) by (vm_compute; easy).
  split; [auto|].
  exact (proj1 (proj1 writeVarint_compact 0x10000 [9; 9; 9; 9; 9; 9; 9] 1
                  H1 H2 H3)).
Defined.

End Varint.

(** ** Unimplemented big-number writes *)

(** C8.  The big-number write variants [writeU64BN], [writeU64BEBN],
    [writeI64BN], [writeI64BEBN], [writeVarintBN] and [writeVarint2BN] are
    dead: on every value and every writer state each fails with the assertion
    message "Not implemented." and leaves the state as it was, so nothing is
    written and the cursor does not move. *)
Theorem bn_writes_not_implemented (op : bn_write) (value : Z) (s : StaticWriter) :
  call_bn op value s = Throw (AssertionError (Some "Not implemented."%string)) s
  /\ state_of (call_bn op value s) = s
  /\ assertion_of (call_bn op value s) = Some (Some "Not implemented."%string).
Proof. destruct op; repeat split. Qed.

(** ** Network magics *)

(** C9.  The packet magic numbers of the four configured networks are
    0xecd8e1c4 (main), 0x69fc86db (testnet), 0xdab5bffa (regtest) and
    0x12141c16 (simnet); they are 32-bit values without a repetition, so a
    magic number, and likewise a 4-byte magic field of a frame, belongs to at
    most one configured network. *)
Theorem network_magic_distinct :
  map network.magic network.types
  = [0xecd8e1c4; 0x69fc86db; 0xdab5bffa; 0x12141c16]
  /\ (forall n, In n network.types)
  /\ (forall n, 0 <= network.magic n < 2 ^ 32)
  /\ NoDup (map network.magic network.types)
  /\ (forall m : Z,
        (List.length
           (List.filter (fun n => (network.magic n =? m)%Z) network.types)
         <= 1)%nat)
  /\ (forall field : list Z,
        (List.length
           (List.filter (fun n => bool_decide (network.magic_field n = field))
              network.types)
         <= 1)%nat).
Proof.
  split; [reflexivity|]. split; [intros []; cbn; tauto|].
  split; [intros []; cbn; lia|].
  split.
  { apply (bool_decide_unpack _). vm_compute. exact I. }
  split.
  - intros m. unfold network.types. cbn [List.filter network.magic].
    repeat match goal with
           | |- context [?a =? m] => destruct (Z.eqb_spec a m)
           end; cbn [List.length]; lia.
  - intros field. unfold network.types. cbn [List.filter].
    repeat case_bool_decide; cbn [List.length]; try lia;
      repeat match goal with
             | H : network.magic_field _ = field |- _ => vm_compute in H
             end; congruence.
Qed.

(** ** Rendering and seeking *)

Lemma render_live (keep : bool) (d : Buffer.t) (w : Z) :
  render keep (live d w)
  = if w =? Buffer.length d
    then Done d (if keep then live d w else destroyed)
    else Throw (AssertionError None) (live d w).
Proof.
  unfold render, live. cbn [data written].
  destruct (Z.eqb_spec w (Buffer.length d)) as [->|Hne].
  - rewrite decide_True by reflexivity. now destruct keep.
  - rewrite decide_False by congruence. reflexivity.
Qed.

(** C3.  On a writer built over a buffer [d] of [c] bytes, [render] returns
    [d] exactly when the cursor equals [c], and fails with an assertion, the
    state untouched, when the cursor is below or above [c].  A successful
    [render()] destroys the state (buffer and cursor are [null]), after which
    rendering again and writing bytes fail; [render(keep)] leaves the state
    as it is. *)
Theorem render_exact (d : Buffer.t) (w : Z) :
  (w = Buffer.length d ->
   render false (live d w) = Done d destroyed
   /\ render true (live d w) = Done d (live d w))
  /\ (w < Buffer.length d \/ Buffer.length d < w ->
      forall keep,
        render keep (live d w) = Throw (AssertionError None) (live d w))
  /\ (forall keep,
        (exists out s', render keep (live d w) = Done out s')
        <-> w = Buffer.length d)
  /\ (forall keep, render keep destroyed = Throw TypeError destroyed)
  /\ (forall op value, call_int op value destroyed = Throw TypeError destroyed)
  /\ (forall value, writeVarint value destroyed = Throw TypeError destroyed)
  /\ (forall value,
        value <> [] -> writeBytes value destroyed = Throw TypeError destroyed).
Proof.
  split; [|split; [|split; [|split; [|split; [|split]]]]].
  - intros ->. rewrite !render_live, Z.eqb_refl. split; reflexivity.
  - intros Hw keep. rewrite render_live.
    destruct (Z.eqb_spec w (Buffer.length d)); [lia | reflexivity].
  - intros keep. rewrite render_live.
    destruct (Z.eqb_spec w (Buffer.length d)) as [Heq|Hne]; split.
    + intros _. exact Heq.
    + intros _. eauto.
    + intros (out & s' & Hout). discriminate Hout.
    + intros Heq. contradiction.
  - intros keep. reflexivity.
  - intros [] value; reflexivity.
  - intros value. reflexivity.
  - intros [|b value] Hne; [contradiction | reflexivity].
Qed.

Lemma render_exact_witness :
  (2 = Buffer.length [7; 8] /\ (1 < Buffer.length [7; 8] \/ Buffer.length [7; 8] < 1))
  /\ render false (live [7; 8] 2) = Done [7; 8] destroyed
  /\ render true (live [7; 8] 2) = Done [7; 8] (live [7; 8] 2)
  /\ render false (live [7; 8] 1) = Throw (AssertionError None) (live [7; 8] 1).
Proof.
  assert (H1 : 2 = Buffer.length [7; 8]) by reflexivity.
  assert (H2 : 1 < Buffer.length [7; 8] \/ Buffer.length [7; 8] < 1)
    by (left; reflexivity).
  split; [auto|].
  destruct (proj1 (render_exact [7; 8] 2) H1) as [Ha Hb].
  pose proof (proj1 (proj2 (render_exact [7; 8] 1)) H2 false) as Hc.
  auto.
Defined.

Lemma seek_then_render (keep : bool) (d : Buffer.t) (w delta : Z) :
  (seek delta ;; render keep) (live d w)
  = if w + delta =? Buffer.length d
    then Done d (if keep then live d (w + delta) else destroyed)
    else Throw (AssertionError None) (live d (w + delta)).
Proof. exact (render_live keep d (w + delta)). Qed.

Section Detection.
Context `{Digest}.

(** No embedded method but [render] has an assertion on the cursor: whether
    a call fails an assertion, and with which message, does not depend on
    where the cursor is. *)
Lemma assertion_cursor_independent (c : call) (d : Buffer.t) (w w' : Z) :
  assertion_of (run_call c (live d w)) = assertion_of (run_call c (live d w')).
Proof.
  destruct c as [| | |op v|op v|v|v|v|v a b|h| |v n]; cbn [run_call];
    try reflexivity.
  - destruct op; reflexivity.
  - destruct op; reflexivity.
  - unfold writeBytes, live. cbn [data written num].
    destruct (Buffer.length v =? 0); [reflexivity|].
    do 2 destruct (Buffer.copy _ _ _ _ _); reflexivity.
  - unfold writeVarBytes, mbind, method_bind, bind, writeVarint, on_data, live.
    cbn [data written num encoding.writeVarint].
    unfold writeBytes. cbn [data written num].
    destruct (Buffer.length v =? 0); [reflexivity|].
    do 2 destruct (Buffer.copy _ _ _ _ _); reflexivity.
  - unfold copy, live. cbn [data written num].
    destruct (b - a =? 0); [reflexivity|].
    do 2 destruct (Buffer.copy _ _ _ _ _); reflexivity.
  - destruct h as [b|str]; unfold writeHash, mbind, method_bind, bind, assert.
    + destruct (Buffer.length b =? 32); [|reflexivity].
      unfold mret, method_ret, ret, writeBytes, live. cbn [data written num].
      destruct (Buffer.length b =? 0); [reflexivity|].
      do 2 destruct (Buffer.copy _ _ _ _ _); reflexivity.
    + destruct (Buffer.strlen str =? 64); [|reflexivity].
      unfold mret, method_ret, ret, live. cbn [data written num].
      do 2 destruct (Buffer.write_hex _ _ _) as [[]|]; reflexivity.
  - unfold writeChecksum, live. cbn [data written num].
    do 2 destruct (Buffer.copy _ _ _ _ _); reflexivity.
  - unfold fill, mbind, method_bind, bind, assert.
    destruct (0 <=? n); [|reflexivity].
    unfold mret, method_ret, ret, live. cbn [data written num].
    destruct (n =? 0); [reflexivity|].
    do 2 destruct (Buffer.fill _ _ _ _); reflexivity.
Qed.

End Detection.

(** ** Byte strings *)

Section ByteStrings.
Import Bytes.

Lemma splice_cut (pre mid post bs : list Z) :
  List.length mid = List.length bs ->
  splice (pre ++ mid ++ post) (Z.of_nat (List.length pre)) bs = pre ++ bs ++ post.
Proof.
  intros Hlen. unfold splice. rewrite Nat2Z.id.
  rewrite take_app_length.
  rewrite (app_assoc pre mid post).
  rewrite (drop_app_length' (pre ++ mid) post) by (rewrite length_app; lia).
  reflexivity.
Qed.

(** Laying [v] and then [bs] right after it is laying [v ++ bs]. *)
Lemma splice_splice (d : Buffer.t) (w : Z) (v bs : list Z) :
  0 <= w ->
  w + Z.of_nat (List.length v) + Z.of_nat (List.length bs) <= Buffer.length d ->
  splice (splice d w v) (w + Z.of_nat (List.length v)) bs = splice d w (v ++ bs).
Proof.
  intros Hw Hroom.
  destruct (room_split d w (List.length v + List.length bs) Hw)
    as (mid & Hlen & Hpre & Hd); [lia|].
  remember (take (Z.to_nat w) d) as pre eqn:Epre.
  remember (drop (Z.to_nat w + (List.length v + List.length bs)) d) as post
    eqn:Epost.
  rewrite Hd, <- Hpre.
  rewrite <- (take_drop (List.length v) mid).
  assert (Hm1 : List.length (take (List.length v) mid) = List.length v)
    by (rewrite length_take; lia).
  assert (Hm2 : List.length (drop (List.length v) mid) = List.length bs)
    by (rewrite length_drop; lia).
  remember (take (List.length v) mid) as m1.
  remember (drop (List.length v) mid) as m2.
  rewrite <- (app_assoc m1 m2 post).
  rewrite (splice_cut pre m1 (m2 ++ post) v Hm1).
  replace (Z.of_nat (List.length pre) + Z.of_nat (List.length v))
    with (Z.of_nat (List.length (pre ++ v))) by (rewrite length_app; lia).
  rewrite (app_assoc pre v).
  rewrite (splice_cut (pre ++ v) m2 post bs Hm2).
  rewrite (app_assoc m1 m2 post).
  rewrite (splice_cut pre (m1 ++ m2) post (v ++ bs))
    by (rewrite !length_app; lia).
  now rewrite <- !app_assoc.
Qed.

(** The block move, on a target with room. *)
Lemma list_inserts_splice (d : Buffer.t) (w : Z) (bs : list Z) :
  0 <= w -> w + Z.of_nat (List.length bs) <= Buffer.length d ->
  list_inserts (Z.to_nat w) bs d = splice d w bs.
Proof.
  intros Hw Hroom.
  destruct (room_split d w (List.length bs) Hw Hroom) as (mid & Hlen & Hpre & Hd).
  unfold splice.
  remember (take (Z.to_nat w) d) as pre eqn:Epre.
  remember (drop (Z.to_nat w + List.length bs) d) as post eqn:Epost.
  rewrite Hd.
  replace (Z.to_nat w) with (List.length pre + 0)%nat by lia.
  rewrite list_inserts_app_r. f_equal.
  apply list_inserts_0_r. congruence.
Qed.

Lemma copy_whole (src d : Buffer.t) (w : Z) :
  src <> [] ->
  0 <= w -> w + Buffer.length src <= Buffer.length d ->
  Buffer.copy src d w 0 (Buffer.length src) = Some (splice d w src).
Proof.
  intros Hne Hw Hroom. unfold Buffer.copy.
  assert (Hlen : 0 < Buffer.length src).
  { unfold Buffer.length. destruct src; [contradiction | cbn; lia]. }
  destruct (Z.ltb_spec w 0); [lia|].
  destruct (Z.ltb_spec 0 0); [lia|].
  destruct (Z.ltb_spec (Buffer.length src) 0); [lia|].
  destruct (Z.leb_spec (Buffer.length d) w); [lia|].
  destruct (Z.leb_spec (Buffer.length src) 0); [lia|].
  cbn [orb].
  rewrite Z.sub_0_r, (Z.min_l _ (Buffer.length d - w)), Z.min_id by lia.
  unfold Buffer.length at 1. rewrite Nat2Z.id. cbn [Z.to_nat drop].
  rewrite firstn_all.
  apply f_equal, list_inserts_splice; [lia | exact Hroom].
Qed.

Lemma writeBytes_live (value d : Buffer.t) (w : Z) :
  0 <= w -> w + Buffer.length value <= Buffer.length d ->
  writeBytes value (live d w)
  = Done tt (live (splice d w value) (w + Buffer.length value)).
Proof.
  intros Hw Hroom. unfold writeBytes.
  destruct value as [|b value].
  - change (Buffer.length [] =? 0) with true. cbn iota.
    unfold splice, live, Buffer.length. cbn [List.length app].
    rewrite Nat.add_0_r, take_drop. change (Z.of_nat 0) with 0.
    now rewrite Z.add_0_r.
  - replace (Buffer.length (b :: value) =? 0) with false
      by (symmetry; apply Z.eqb_neq; unfold Buffer.length; cbn; lia).
    unfold live. cbn [data written num].
    now rewrite copy_whole.
Qed.

(** C7.  For every byte buffer [value], [writeBytes value] on a writer with
    room lays [value] unchanged at the cursor and advances the cursor by its
    length; on an empty buffer it returns at once and leaves any state
    (buffer and cursor) as it was.  [writeVarBytes value] is [writeVarint] of
    the length followed by [writeBytes value], so on a writer with room it
    lays the varint of the length immediately followed by the bytes. *)
Theorem writeBytes_verbatim (value : Buffer.t) :
  (forall d w,
     0 <= w -> w + Buffer.length value <= Buffer.length d ->
     writeBytes value (live d w)
     = Done tt (live (splice d w value) (w + Buffer.length value)))
  /\ (forall s, writeBytes [] s = Done tt s)
  /\ (forall s,
        writeVarBytes value s
        = (writeVarint (Buffer.length value) ;; writeBytes value) s)
  /\ (forall d w,
        0 <= w ->
        w + Buffer.length (encoding.varint (Buffer.length value) ++ value)
        <= Buffer.length d ->
        writeVarBytes value (live d w)
        = Done tt
            (live (splice d w (encoding.varint (Buffer.length value) ++ value))
               (w + Buffer.length
                      (encoding.varint (Buffer.length value) ++ value)))).
Proof.
  split; [|split; [|split]].
  - intros d w. apply writeBytes_live.
  - reflexivity.
  - reflexivity.
  - intros d w Hw Hroom.
    set (v := encoding.varint (Buffer.length value)) in *.
    assert (Hr : w + Z.of_nat (List.length v) + Buffer.length value
                 <= Buffer.length d).
    { unfold Buffer.length in *. rewrite length_app in Hroom. lia. }
    assert (Hv : 0 <= Buffer.length value) by (unfold Buffer.length; lia).
    unfold writeVarBytes, mbind, method_bind, bind.
    fold v. rewrite writeVarint_live by (fold v; lia). fold v.
    rewrite writeBytes_live.
    + rewrite splice_splice by (unfold Buffer.length in *; lia).
      unfold Buffer.length. rewrite length_app. do 2 f_equal. lia.
    + lia.
    + unfold Buffer.length at 2.
      rewrite splice_length by (unfold Buffer.length in *; lia).
      exact Hr.
Qed.

Lemma writeBytes_verbatim_witness :
  (0 <= 1 /\ 1 + Buffer.length [1; 2; 3] <= Buffer.length [9; 9; 9; 9; 9; 9]
   /\ 1 + Buffer.length (encoding.varint (Buffer.length [1; 2; 3]) ++ [1; 2; 3])
      <= Buffer.length [9; 9; 9; 9; 9; 9])
  /\ writeBytes [1; 2; 3] (live [9; 9; 9; 9; 9; 9] 1)
     = Done tt (live [9; 1; 2; 3; 9; 9] 4)
  /\ writeVarBytes [1; 2; 3] (live [9; 9; 9; 9; 9; 9] 1)
     = Done tt (live [9; 3; 1; 2; 3; 9] 5).
Proof.
  assert (H1 : 0 <= 1) by lia.
  assert (H2 : 1 + Buffer.length [1; 2; 3] <= Buffer.length [9; 9; 9; 9; 9; 9])
    by (vm_compute; easy).
  assert (H3 : 1 + Buffer.length
                     (encoding.varint (Buffer.length [1; 2; 3]) ++ [1; 2; 3])
               <= Buffer.length [9; 9; 9; 9; 9; 9]) by (vm_compute; easy).
  split; [auto|]. split.
  - exact (proj1 (writeBytes_verbatim [1; 2; 3]) [9; 9; 9; 9; 9; 9] 1 H1 H2).
  - exact (proj2 (proj2 (proj2 (writeBytes_verbatim [1; 2; 3])))
             [9; 9; 9; 9; 9; 9] 1 H1 H3).
Defined.

End ByteStrings.

(** ** Checksums *)

Section Checksum.
Context `{Digest}.

Lemma slice_prefix (d : Buffer.t) (k : Z) :
  0 <= k <= Buffer.length d -> Buffer.slice d 0 k = take (Z.to_nat k) d.
Proof.
  intros Hk. unfold Buffer.slice, Buffer.adjustOffset.
  destruct (Z.ltb_spec 0 0); [lia|].
  destruct (Z.ltb_spec k 0); [lia|].
  assert (Hs : (if 0 <? Buffer.length d then 0 else Buffer.length d) = 0).
  { destruct (Z.ltb_spec 0 (Buffer.length d)); lia. }
  assert (He : (if k <? Buffer.length d then k else Buffer.length d) = k).
  { destruct (Z.ltb_spec k (Buffer.length d)); lia. }
  rewrite Hs, He. cbn [Z.to_nat drop].
  destruct (Z.ltb_spec 0 k); [now rewrite Z.sub_0_r|].
  now replace k with 0 by lia.
Qed.

Lemma copy_prefix (src d : Buffer.t) (w n : Z) :
  0 < n <= Buffer.length src ->
  0 <= w -> w + n <= Buffer.length d ->
  Buffer.copy src d w 0 n = Some (splice d w (take (Z.to_nat n) src)).
Proof.
  intros Hn Hw Hroom. unfold Buffer.copy.
  destruct (Z.ltb_spec w 0); [lia|].
  destruct (Z.ltb_spec 0 0); [lia|].
  destruct (Z.ltb_spec n 0); [lia|].
  destruct (Z.leb_spec (Buffer.length d) w); [lia|].
  destruct (Z.leb_spec n 0); [lia|].
  destruct (Z.ltb_spec (Buffer.length src) 0); [lia|].
  cbn [orb].
  rewrite !Z.sub_0_r, (Z.min_l n (Buffer.length d - w)), Z.min_l by lia.
  cbn [Z.to_nat drop].
  apply f_equal, list_inserts_splice; [lia|].
  rewrite length_take. unfold Buffer.length in *. lia.
Qed.

Lemma hash256_size (m : list Z) : List.length (hash256 m) = 32%nat.
Proof. apply sha256_size. Qed.

(** C4.  On a writer with [k] bytes written and room for four more,
    [writeChecksum] takes the double hash (the hash of the hash) of exactly
    the [k] bytes written so far, lays the first 4 bytes of that digest at
    the cursor and advances the cursor by exactly 4; the [k] bytes already
    written are unchanged. *)
Theorem writeChecksum_appends (d : Buffer.t) (k : Z) :
  0 <= k -> k + 4 <= Buffer.length d ->
  writeChecksum (live d k)
  = Done tt (live (splice d k (take 4 (hash256 (take (Z.to_nat k) d))))
               (k + 4))
  /\ hash256 (take (Z.to_nat k) d) = sha256 (sha256 (take (Z.to_nat k) d))
  /\ List.length (take (Z.to_nat k) d) = Z.to_nat k
  /\ List.length (take 4 (hash256 (take (Z.to_nat k) d))) = 4%nat
  /\ take (Z.to_nat k)
       (splice d k (take 4 (hash256 (take (Z.to_nat k) d))))
     = take (Z.to_nat k) d.
Proof.
  intros Hk Hroom. split; [|split; [|split; [|split]]].
  - unfold writeChecksum, live. cbn [data written num].
    rewrite slice_prefix by lia.
    rewrite (copy_prefix _ d k 4); [reflexivity | | lia | lia].
    unfold Buffer.length. rewrite hash256_size. lia.
  - reflexivity.
  - rewrite length_take. unfold Buffer.length in Hroom. lia.
  - rewrite length_take, hash256_size. reflexivity.
  - apply splice_take; lia.
Qed.

End Checksum.

Lemma writeChecksum_appends_witness :
  (0 <= 2 /\ 2 + 4 <= Buffer.length [1; 2; 9; 9; 9; 9; 9])
  /\ @writeChecksum sum_Digest (live [1; 2; 9; 9; 9; 9; 9] 2)
     = Done tt (live [1; 2; 71; 71; 71; 71; 9] 6).
Proof.
  assert (H1 : 0 <= 2) by lia.
  assert (H2 : 2 + 4 <= Buffer.length [1; 2; 9; 9; 9; 9; 9])
    by (vm_compute; easy).
  split; [auto|].
  exact (proj1 (@writeChecksum_appends sum_Digest [1; 2; 9; 9; 9; 9; 9] 2 H1 H2)).
Defined.

(** ** Hashes *)

Section Hashes.

Lemma hex_decode_pairs (i : nat) :
  forall s : string,
    is_hex s = true ->
    (2 * i + 1 < String.length s)%nat ->
    exists a b hi lo,
      String.get (2 * i) s = Some a /\ String.get (2 * i + 1) s = Some b
      /\ Buffer.unhex a = Some hi /\ Buffer.unhex b = Some lo
      /\ Buffer.hex_decode s !! i = Some (16 * hi + lo).
Proof.
  induction i as [|i IH]; intros [|a [|b rest]] Hhex Hlen;
    cbn [String.length] in Hlen; try lia;
    unfold is_hex in Hhex; cbn [list_ascii_of_string forallb] in Hhex;
    destruct (Buffer.unhex a) as [hi|] eqn:Ea; try discriminate Hhex;
    destruct (Buffer.unhex b) as [lo|] eqn:Eb; try discriminate Hhex;
    cbn [andb] in Hhex.
  - exists a, b, hi, lo. cbn [Buffer.hex_decode]. rewrite Ea, Eb.
    repeat split; assumption.
  - destruct (IH rest Hhex) as (a' & b' & hi' & lo' & Ha & Hb & Hhi & Hlo & Hd);
      [lia|].
    exists a', b', hi', lo'.
    replace (2 * S i)%nat with (S (S (2 * i))) by lia.
    cbn [String.get Nat.add]. cbn [Buffer.hex_decode]. rewrite Ea, Eb.
    repeat split; assumption.
Qed.

Lemma hex_decode_length (n : nat) :
  forall s : string,
    is_hex s = true -> String.length s = (2 * n)%nat ->
    List.length (Buffer.hex_decode s) = n.
Proof.
  induction n as [|n IH]; intros [|a [|b rest]] Hhex Hlen;
    cbn [String.length] in Hlen; try lia; try reflexivity.
  unfold is_hex in Hhex; cbn [list_ascii_of_string forallb] in Hhex.
  cbn [Buffer.hex_decode].
  destruct (Buffer.unhex a); try discriminate Hhex.
  destruct (Buffer.unhex b); try discriminate Hhex.
  cbn [List.length]. f_equal. apply IH; [exact Hhex | lia].
Qed.

(** A string of hex digits decodes to one byte per complete digit pair. *)
Lemma hex_decode_half (n : nat) :
  forall s : string,
    is_hex s = true ->
    String.length s = (2 * n)%nat \/ String.length s = (2 * n + 1)%nat ->
    List.length (Buffer.hex_decode s) = n.
Proof.
  induction n as [|n IH]; intros [|a [|b rest]] Hhex Hlen;
    cbn [String.length] in Hlen; try lia; try reflexivity.
  unfold is_hex in Hhex; cbn [list_ascii_of_string forallb] in Hhex.
  cbn [Buffer.hex_decode].
  destruct (Buffer.unhex a); try discriminate Hhex.
  destruct (Buffer.unhex b); try discriminate Hhex.
  cbn [List.length]. f_equal. apply IH; [exact Hhex | lia].
Qed.

(** The hex decoder gives at most one byte per digit pair, and fewer when
    a character is not a hex digit. *)
Lemma hex_decode_bound (n : nat) :
  forall s : string,
    (String.length s <= n)%nat ->
    (2 * List.length (Buffer.hex_decode s) <= String.length s)%nat
    /\ (is_hex s = false ->
        (2 * List.length (Buffer.hex_decode s) < String.length s)%nat).
Proof.
  induction n as [|n IH]; intros [|a [|b rest]] Hlen;
    cbn [String.length] in Hlen; try lia;
    cbn [Buffer.hex_decode String.length List.length];
    try (split; [lia | intros Hhex; first [discriminate Hhex | lia]]).
  destruct (IH rest ltac:(lia)) as [Hle Hlt].
  unfold is_hex in *. cbn [list_ascii_of_string forallb].
  destruct (Buffer.unhex a); [|cbn [List.length]; split; lia].
  destruct (Buffer.unhex b); [|cbn [List.length]; split; lia].
  cbn [andb List.length]. split; [lia|].
  intros Hhex. specialize (Hlt Hhex). lia.
Qed.

Lemma write_hex_live (str : string) (d : Buffer.t) (w : Z) :
  Buffer.strlen str = 64 -> is_hex str = true ->
  0 <= w -> w + 32 <= Buffer.length d -> Buffer.length d < 2 ^ 32 ->
  Buffer.write_hex d str w = inr (splice d w (Buffer.hex_decode str)).
Proof.
  intros Hlen Hhex Hw Hroom Hmax. unfold Buffer.write_hex.
  rewrite toUint32_small by lia. rewrite Hlen.
  assert (Hd : List.length (Buffer.hex_decode str) = 32%nat).
  { apply hex_decode_length; [exact Hhex|]. unfold Buffer.strlen in Hlen. lia. }
  destruct (Z.ltb_spec (Buffer.length d - w) 0); [lia|].
  destruct (Z.ltb_spec (Buffer.length d) w); [lia|].
  cbn [andb Z.odd]. rewrite take_ge by lia.
  apply f_equal, list_inserts_splice; [lia|]. rewrite Hd. exact Hroom.
Qed.

(** C2, as the code has it.  [writeHash] on a writer with room writes exactly
    32 bytes and advances the cursor by 32: a 32-byte buffer is written as it
    is; a string of 64 hex digits is decoded digit pair by digit pair and the
    bytes are written in the order of the pairs, without any reversal.  A
    buffer of another length and a string of another length fail an
    assertion and leave the writer as it was. *)
Theorem writeHash_pair_order :
  (forall (b d : Buffer.t) (w : Z),
     Buffer.length b = 32 -> 0 <= w -> w + 32 <= Buffer.length d ->
     writeHash (HashBuffer b) (live d w) = Done tt (live (splice d w b) (w + 32)))
  /\ (forall (str : string) (d : Buffer.t) (w : Z),
        Buffer.strlen str = 64 -> is_hex str = true ->
        0 <= w -> w + 32 <= Buffer.length d -> Buffer.length d < 2 ^ 32 ->
        writeHash (HashString str) (live d w)
        = Done tt (live (splice d w (Buffer.hex_decode str)) (w + 32))
        /\ List.length (Buffer.hex_decode str) = 32%nat
        /\ (forall i, (i < 32)%nat ->
              exists a b hi lo,
                String.get (2 * i) str = Some a
                /\ String.get (2 * i + 1) str = Some b
                /\ Buffer.unhex a = Some hi /\ Buffer.unhex b = Some lo
                /\ Buffer.hex_decode str !! i = Some (16 * hi + lo)))
  /\ (forall (b : Buffer.t) (s : StaticWriter),
        Buffer.length b <> 32 ->
        writeHash (HashBuffer b) s = Throw (AssertionError None) s)
  /\ (forall (str : string) (s : StaticWriter),
        Buffer.strlen str <> 64 ->
        writeHash (HashString str) s = Throw (AssertionError None) s).
Proof.
  split; [|split; [|split]].
  - intros b d w Hb Hw Hroom.
    unfold writeHash, mbind, method_bind, bind, assert.
    rewrite Hb. cbn [Z.eqb Pos.eqb]. unfold mret, method_ret, ret.
    rewrite writeBytes_live by lia. now rewrite Hb.
  - intros str d w Hlen Hhex Hw Hroom Hmax. split; [|split].
    + unfold writeHash, mbind, method_bind, bind, assert.
      rewrite Hlen. cbn [Z.eqb Pos.eqb]. unfold mret, method_ret, ret, live.
      cbn [data written num].
      now rewrite write_hex_live.
    + apply hex_decode_length; [exact Hhex|].
      unfold Buffer.strlen in Hlen. lia.
    + intros i Hi. apply hex_decode_pairs; [exact Hhex|].
      unfold Buffer.strlen in Hlen. lia.
  - intros b s Hb. unfold writeHash, mbind, method_bind, bind, assert.
    destruct (Z.eqb_spec (Buffer.length b) 32); [contradiction | reflexivity].
  - intros str s Hs. unfold writeHash, mbind, method_bind, bind, assert.
    destruct (Z.eqb_spec (Buffer.strlen str) 64); [contradiction | reflexivity].
Qed.

Lemma writeHash_pair_order_witness :
  (Buffer.strlen simnet_genesis_hash = 64 /\ is_hex simnet_genesis_hash = true
   /\ 0 <= 1 /\ 1 + 32 <= Buffer.length (repeat 9 34)
   /\ Buffer.length (repeat 9 34) < 2 ^ 32)
  /\ writeHash (HashString simnet_genesis_hash) (live (repeat 9 34) 1)
     = Done tt (live (9 :: simnet_genesis_bytes ++ [9]) 33).
Proof.
  assert (H1 : Buffer.strlen simnet_genesis_hash = 64) by reflexivity.
  assert (H2 : is_hex simnet_genesis_hash = true) by reflexivity.
  assert (H3 : 0 <= 1) by lia.
  assert (H4 : 1 + 32 <= Buffer.length (repeat 9 34)) by (vm_compute; easy).
  assert (H5 : Buffer.length (repeat 9 34) < 2 ^ 32) by reflexivity.
  split; [auto 6|].
  exact (proj1 (proj1 (proj2 writeHash_pair_order)
                  simnet_genesis_hash (repeat 9 34) 1 H1 H2 H3 H4 H5)).
Defined.

(** The specification's reading, by which a hex string is written in the
    reverse of its digit-pair order, fails on the genesis hash of simnet: the
    writer lays the bytes in the order of the digit pairs, which is not their
    reverse. *)
Lemma writeHash_reversed_counterexample :
  Buffer.hex_decode simnet_genesis_hash = simnet_genesis_bytes
  /\ (writeHash (HashString simnet_genesis_hash) ;; render false)
       (create (repeat 0 32))
     = Done simnet_genesis_bytes destroyed
  /\ (writeHash (HashString simnet_genesis_hash) ;; render false)
       (create (repeat 0 32))
     <> Done (rev simnet_genesis_bytes) destroyed.
Proof.
  split; [reflexivity|]. split; [reflexivity|].
  vm_compute. intros Heq. discriminate Heq.
Qed.

End Hashes.

(** ** The deframer *)

Section ParserFacts.
Import Parser.
Context {Packet : Type} (registry : string -> option (list Z -> option Packet)).
Context `{Digest} (np : Params).

Local Abbreviation step := (Parser.step registry np).
Local Abbreviation loop := (Parser.loop registry np).
Local Abbreviation run := (Parser.run registry np).
Local Abbreviation feed := (Parser.feed registry np).
Local Abbreviation feed_all := (Parser.feed_all registry np).

(** Every turn of the loop lowers the measure. *)
Lemma step_measure (p p' : Parser.t) (evs : list event) :
  step p = Some (p', evs) -> (measure p' < measure p)%nat.
Proof.
  unfold Parser.step, measure. destruct p as [buf [|h|e]]; cbn [pending st].
  - destruct (Z.ltb_spec (Buffer.length buf) 24) as [|Hlen]; [discriminate|].
    unfold Buffer.length in Hlen.
    destruct (negb _); [|destruct (_ <? _)];
      intros [= <- <-]; cbn [pending st]; rewrite ?length_drop; lia.
  - destruct (Z.ltb_spec (Buffer.length buf) (h_length h)); [discriminate|].
    destruct (bool_decide _);
      intros [= <- <-]; cbn [pending st]; rewrite ?length_drop; lia.
  - discriminate.
Qed.

(** Once the fuel exceeds the measure, more fuel changes nothing. *)
Lemma loop_fuel (f1 : nat) :
  forall (f2 : nat) (p : Parser.t),
    (measure p < f1)%nat -> (measure p < f2)%nat -> loop f1 p = loop f2 p.
Proof.
  induction f1 as [|f1 IH]; intros f2 p H1 H2; [lia|].
  destruct f2 as [|f2]; [lia|].
  cbn [Parser.loop]. destruct (step p) as [[p' evs]|] eqn:Es; [|reflexivity].
  apply step_measure in Es.
  rewrite (IH f2 p') by lia. reflexivity.
Qed.

(** The loop, one turn at a time. *)
Lemma run_unfold (p : Parser.t) :
  run p = match step p with
          | None => (p, [])
          | Some (p', evs) => let '(p'', evs') := run p' in (p'', evs ++ evs')
          end.
Proof.
  unfold Parser.run at 1. cbn [Parser.loop].
  destruct (step p) as [[p' evs]|] eqn:Es; [|reflexivity].
  apply step_measure in Es.
  unfold Parser.run. rewrite (loop_fuel (measure p) (S (measure p')) p') by lia.
  reflexivity.
Qed.

(** The loop stops by itself: where it ends, no turn is possible. *)
Lemma run_quiescent (n : nat) :
  forall p : Parser.t, (measure p < n)%nat -> step (fst (run p)) = None.
Proof.
  induction n as [|n IH]; intros p Hn; [lia|].
  rewrite run_unfold. destruct (step p) as [[p' evs]|] eqn:Es; [|exact Es].
  pose proof (step_measure _ _ _ Es) as Hm.
  specialize (IH p' ltac:(lia)).
  destruct (run p') as [p'' evs']. exact IH.
Qed.

(** A turn that is possible stays possible, with the same effect, when more
    bytes have arrived. *)
Lemma step_append (p p' : Parser.t) (evs : list event) (chunk : list Z) :
  step p = Some (p', evs) ->
  step (append p chunk) = Some (append p' chunk, evs).
Proof.
  unfold Parser.step, append. destruct p as [buf [|h|e]]; cbn [pending st].
  - unfold Buffer.length. rewrite length_app.
    destruct (Z.ltb_spec (Z.of_nat (List.length buf)) 24) as [|Hlen];
      [discriminate|].
    destruct (Z.ltb_spec (Z.of_nat (List.length buf + List.length chunk)) 24);
      [lia|].
    rewrite (take_app_le buf chunk 24) by lia.
    destruct (negb _); [|destruct (_ <? _)];
      intros [= <- <-]; cbn [pending st]; try reflexivity.
    rewrite drop_app_le by lia. reflexivity.
  - unfold Buffer.length. rewrite length_app.
    destruct (Z.ltb_spec (Z.of_nat (List.length buf)) (h_length h)) as [|Hlen];
      [discriminate|].
    destruct (Z.ltb_spec (Z.of_nat (List.length buf + List.length chunk))
                (h_length h)); [lia|].
    rewrite (take_app_le buf chunk) by lia.
    destruct (bool_decide _);
      intros [= <- <-]; cbn [pending st];
      rewrite drop_app_le by lia; reflexivity.
  - discriminate.
Qed.

(** Running on more bytes is running first on what is there, then on the
    rest. *)
Lemma run_append (n : nat) (chunk : list Z) :
  forall p : Parser.t,
    (measure p < n)%nat ->
    run (append p chunk)
    = let '(p1, e1) := run p in
      let '(p2, e2) := run (append p1 chunk) in
      (p2, e1 ++ e2).
Proof.
  induction n as [|n IH]; intros p Hn; [lia|].
  rewrite (run_unfold p).
  destruct (step p) as [[p' evs]|] eqn:Es.
  - pose proof (step_measure _ _ _ Es) as Hm.
    rewrite (run_unfold (append p chunk)), (step_append _ _ _ chunk Es).
    rewrite (IH p') by lia.
    destruct (run p') as [p1 e1].
    destruct (run (append p1 chunk)) as [p2 e2].
    now rewrite app_assoc.
  - destruct (run (append p chunk)) as [p2 e2]. reflexivity.
Qed.

Lemma append_append (p : Parser.t) (c1 c2 : list Z) :
  append (append p c1) c2 = append p (c1 ++ c2).
Proof. unfold append. cbn [pending st]. now rewrite app_assoc. Qed.

Lemma append_nil (p : Parser.t) : append p [] = p.
Proof. destruct p. unfold append. cbn [pending st]. now rewrite app_nil_r. Qed.

(** Two calls of [feed] are one call on the two chunks put together. *)
Lemma feed_feed (p : Parser.t) (c1 c2 : list Z) :
  feed p (c1 ++ c2)
  = let '(p1, e1) := feed p c1 in
    let '(p2, e2) := feed p1 c2 in
    (p2, e1 ++ e2).
Proof.
  unfold Parser.feed. rewrite <- append_append.
  apply (run_append (S (measure (append p c1)))). lia.
Qed.

Lemma feed_quiescent (p : Parser.t) (chunk : list Z) :
  step (fst (feed p chunk)) = None.
Proof.
  unfold Parser.feed. apply (run_quiescent (S (measure (append p chunk)))). lia.
Qed.

(** Chunk-splitting invariance: however a byte stream is cut into chunks,
    feeding the chunks one at a time is feeding the stream at once. *)
Lemma feed_all_concat (chunks : list (list Z)) :
  forall p : Parser.t,
    step p = None -> feed_all p chunks = feed p (concat chunks).
Proof.
  induction chunks as [|c cs IH]; intros p Hq.
  - cbn [Parser.feed_all concat]. unfold Parser.feed.
    now rewrite append_nil, run_unfold, Hq.
  - cbn [Parser.feed_all concat]. rewrite feed_feed.
    pose proof (feed_quiescent p c) as Hq'.
    destruct (feed p c) as [p' evs]. cbn [fst] in Hq'.
    now rewrite (IH p' Hq').
Qed.

End ParserFacts.

(** ** Framing round trip *)

Section RoundTrip.
Import Bytes Parser.
Context {Packet : Type} (registry : string -> option (list Z -> option Packet)).
Context `{Digest} (np : Params).

Lemma unpad_zeros (k : nat) : unpad (repeat 0 k) = [].
Proof.
  induction k as [|k IH]; [reflexivity|].
  cbn [repeat]. unfold unpad in *. cbn [fold_right]. now rewrite IH.
Qed.

Lemma unpad_cons (b : Z) (bs : list Z) :
  unpad (b :: bs)
  = match unpad bs with
    | [] => if b =? 0 then [] else [b]
    | _ :: _ => b :: unpad bs
    end.
Proof. reflexivity. Qed.

(** Padding a field and removing the padding gives the field back, unless
    the field itself ends in a NUL. *)
Lemma unpad_pad (bs : list Z) (k : nat) :
  last bs <> Some 0 -> unpad (bs ++ repeat 0 k) = bs.
Proof.
  induction bs as [|b bs IH]; intros Hlast.
  - apply unpad_zeros.
  - cbn [app]. rewrite unpad_cons.
    destruct bs as [|b' bs].
    + cbn [app]. rewrite unpad_zeros.
      destruct (Z.eqb_spec b 0) as [->|]; [|reflexivity].
      now contradiction Hlast.
    + rewrite IH by exact Hlast. reflexivity.
Qed.

Lemma ascii_of_byte_of_ascii (c : ascii) :
  ascii_of_byte (Framer.byte_of_ascii c) = c.
Proof.
  unfold ascii_of_byte, Framer.byte_of_ascii.
  rewrite Nat2Z.id. apply ascii_nat_embedding.
Qed.

Lemma command_of_field (cmd : string) :
  last (Framer.ascii_bytes cmd) <> Some 0 ->
  command_of (Framer.command_field cmd) = cmd.
Proof.
  intros Hlast. unfold command_of, Framer.command_field.
  rewrite unpad_pad by exact Hlast.
  unfold Framer.ascii_bytes. rewrite map_map.
  rewrite (map_ext _ (fun c => c)) by apply ascii_of_byte_of_ascii.
  rewrite map_id. apply string_of_list_ascii_of_string.
Qed.

Lemma list_ascii_length (s : string) :
  List.length (list_ascii_of_string s) = String.length s.
Proof. induction s as [|c s IH]; cbn; [|rewrite IH]; reflexivity. Qed.

Lemma command_field_length (cmd : string) :
  (String.length cmd <= 12)%nat ->
  List.length (Framer.command_field cmd) = 12%nat.
Proof.
  intros Hlen. unfold Framer.command_field, Framer.ascii_bytes.
  rewrite length_app, length_map, repeat_length.
  rewrite list_ascii_length. lia.
Qed.

(** The header of a frame reads back as it was written. *)
Lemma parse_frame_header (cmd : string) (payload : list Z) :
  Params_wf np ->
  (String.length cmd <= 12)%nat ->
  last (Framer.ascii_bytes cmd) <> Some 0 ->
  Buffer.length payload < 2 ^ 32 ->
  let header := le_bytes 4 (magic np) ++ Framer.command_field cmd
                ++ le_bytes 4 (Buffer.length payload)
                ++ take 4 (hash256 payload) in
  List.length header = 24%nat
  /\ parse_header header
     = {| h_magic := magic np; h_command := cmd;
          h_length := Buffer.length payload;
          h_checksum := take 4 (hash256 payload) |}.
Proof.
  intros [Hmagic _] Hcmd Hlast Hlen header.
  assert (Hk : List.length (take 4 (hash256 payload)) = 4%nat)
    by (rewrite length_take, hash256_size; reflexivity).
  assert (Hc := command_field_length cmd Hcmd).
  split.
  - unfold header. rewrite !length_app, !le_bytes_length, Hc, Hk. reflexivity.
  - unfold parse_header, header.
    rewrite (take_app_length' (le_bytes 4 (magic np)))
      by (now rewrite le_bytes_length).
    rewrite (drop_app_length' (le_bytes 4 (magic np)))
      by (now rewrite le_bytes_length).
    rewrite (take_app_length' (Framer.command_field cmd)) by (now rewrite Hc).
    rewrite (app_assoc (le_bytes 4 (magic np)) (Framer.command_field cmd)).
    rewrite (drop_app_length' (le_bytes 4 (magic np) ++ Framer.command_field cmd))
      by (now rewrite length_app, le_bytes_length, Hc).
    rewrite (take_app_length' (le_bytes 4 (Buffer.length payload)))
      by (now rewrite le_bytes_length).
    rewrite (app_assoc (le_bytes 4 (magic np) ++ Framer.command_field cmd)).
    rewrite (drop_app_length' _ (take 4 (hash256 payload)))
      by (now rewrite !length_app, !le_bytes_length, Hc).
    rewrite (take_ge (take 4 (hash256 payload))) by lia.
    rewrite !le_decode_le_bytes, command_of_field by exact Hlast.
    change (256 ^ Z.of_nat 4) with (2 ^ 32).
    rewrite !Z.mod_small; [reflexivity | | lia].
    unfold Buffer.length in *. lia.
Qed.

(** One frame, fed at once to a fresh parser. *)
Lemma feed_frame (cmd : string) (payload bytes : list Z) :
  Params_wf np ->
  (String.length cmd <= 12)%nat ->
  last (Framer.ascii_bytes cmd) <> Some 0 ->
  Buffer.length payload <= maxMessageSize np ->
  Framer.frame np cmd payload = Some bytes ->
  feed registry np fresh bytes
  = (fresh, [dispatch registry cmd payload]).
Proof.
  intros Hwf Hcmd Hlast Hmax Hframe.
  assert (Hlt : Buffer.length payload < 2 ^ 32) by (destruct Hwf; lia).
  pose proof (parse_frame_header cmd payload Hwf Hcmd Hlast Hlt) as Hp.
  cbv zeta in Hp.
  remember (le_bytes 4 (magic np) ++ Framer.command_field cmd
            ++ le_bytes 4 (Buffer.length payload)
            ++ take 4 (hash256 payload)) as header eqn:Eh.
  destruct Hp as [H24 Hparse].
  assert (Hb : bytes = header ++ payload).
  { unfold Framer.frame in Hframe.
    destruct (Nat.ltb_spec 12 (String.length cmd)); [lia|].
    rewrite Eh, <- !app_assoc. congruence. }
  subst bytes. clear Eh Hframe.
  unfold Parser.feed, append, fresh. cbn [pending st]. rewrite app_nil_l.
  (* the header *)
  rewrite run_unfold. unfold Parser.step at 1. cbn [pending st].
  unfold Buffer.length at 1. rewrite length_app, H24.
  destruct (Z.ltb_spec (Z.of_nat (24 + List.length payload)) 24); [lia|].
  rewrite (take_app_length' header payload 24) by (symmetry; exact H24).
  rewrite Hparse. cbn [h_magic h_length].
  rewrite Z.eqb_refl. cbn [negb].
  destruct (Z.ltb_spec (maxMessageSize np) (Buffer.length payload)); [lia|].
  rewrite (drop_app_length' header payload 24) by (symmetry; exact H24).
  (* the payload *)
  rewrite run_unfold. unfold Parser.step at 1. cbn [pending st h_length].
  rewrite Z.ltb_irrefl.
  assert (Hn : Z.to_nat (Buffer.length payload) = List.length payload)
    by (unfold Buffer.length; lia).
  rewrite Hn, (take_ge payload), (drop_ge payload) by lia.
  cbn [h_checksum h_command].
  rewrite bool_decide_eq_true_2 by reflexivity.
  (* nothing is left *)
  rewrite run_unfold. reflexivity.
Qed.

(** A frame whose payload is longer than the configured maximum is refused
    on its header. *)
Lemma feed_oversized (cmd : string) (payload bytes : list Z) :
  Params_wf np ->
  (String.length cmd <= 12)%nat ->
  last (Framer.ascii_bytes cmd) <> Some 0 ->
  maxMessageSize np < Buffer.length payload < 2 ^ 32 ->
  Framer.frame np cmd payload = Some bytes ->
  feed registry np fresh bytes
  = ({| pending := bytes; st := Failed Oversized |}, [EFatal Oversized]).
Proof.
  intros Hwf Hcmd Hlast [Hmax Hlt] Hframe.
  pose proof (parse_frame_header cmd payload Hwf Hcmd Hlast Hlt) as Hp.
  cbv zeta in Hp.
  remember (le_bytes 4 (magic np) ++ Framer.command_field cmd
            ++ le_bytes 4 (Buffer.length payload)
            ++ take 4 (hash256 payload)) as header eqn:Eh.
  destruct Hp as [H24 Hparse].
  assert (Hb : bytes = header ++ payload).
  { unfold Framer.frame in Hframe.
    destruct (Nat.ltb_spec 12 (String.length cmd)); [lia|].
    rewrite Eh, <- !app_assoc. congruence. }
  subst bytes. clear Eh Hframe.
  unfold Parser.feed, append, fresh. cbn [pending st]. rewrite app_nil_l.
  rewrite run_unfold. unfold Parser.step at 1. cbn [pending st].
  unfold Buffer.length at 1. rewrite length_app, H24.
  destruct (Z.ltb_spec (Z.of_nat (24 + List.length payload)) 24); [lia|].
  rewrite (take_app_length' header payload 24) by (symmetry; exact H24).
  rewrite Hparse. cbn [h_magic h_length].
  rewrite Z.eqb_refl. cbn [negb].
  destruct (Z.ltb_spec (maxMessageSize np) (Buffer.length payload)); [|lia].
  rewrite run_unfold. reflexivity.
Qed.

End RoundTrip.



(** Both bounds are needed: a payload above the message limit is refused by
    the parser on its header, and a command that ends in a NUL comes back
    without it, the parser taking it for padding. *)
Lemma frame_outside_bounds :
  option_map
    (fun bytes =>
       snd (@Parser.feed _ echo_registry sum_Digest main_params
              Parser.fresh bytes))
    (@Framer.frame sum_Digest main_params "tx" oversized_payload)
  = Some [Parser.EFatal Parser.Oversized]
  /\ option_map
       (fun bytes =>
          snd (@Parser.feed _ echo_registry sum_Digest main_params
                 Parser.fresh bytes))
       (@Framer.frame sum_Digest main_params tx_nul [1; 2; 3])
     = Some [Parser.EPacket "tx"%string [1; 2; 3]]
  /\ tx_nul <> "tx"%string.
Proof.
  split; [|split].
  - destruct (@Framer.frame sum_Digest main_params "tx" oversized_payload)
      as [bytes|] eqn:Hframe.
    + cbn [option_map]. f_equal.
      rewrite (@feed_oversized _ echo_registry sum_Digest main_params
                 "tx" oversized_payload bytes); [reflexivity | | | | | exact Hframe].
      * split; split; vm_compute; congruence.
      * cbn; lia.
      * vm_compute; intros Heq; discriminate Heq.
      * unfold Buffer.length, oversized_payload.
        rewrite repeat_length, Z2Nat.id by (vm_compute; congruence).
        split; [reflexivity | reflexivity].
    + unfold Framer.frame in Hframe.
      change ((12 <? String.length "tx")%nat) with false in Hframe.
      discriminate Hframe.
  - reflexivity.
  - intros Heq. discriminate Heq.
Qed.

(** * Further properties of the writer *)

(** ** Stores that fall outside the buffer *)

Section Clip.
Import Bytes.

Lemma clip_length (d : Buffer.t) (w : Z) (bs : list Z) :
  List.length (clip d w bs) = List.length d.
Proof.
  unfold clip, splice.
  rewrite length_take, !length_app, length_take, length_drop. lia.
Qed.

Lemma clip_lookup_before (d : Buffer.t) (w : Z) (bs : list Z) (k : nat) :
  (k < Z.to_nat w)%nat -> clip d w bs !! k = d !! k.
Proof.
  intros Hk. unfold clip, splice.
  destruct (Nat.lt_ge_cases k (List.length d)) as [Hlt|Hge].
  - rewrite lookup_take_lt by lia.
    rewrite lookup_app_l by (rewrite length_take; lia).
    now rewrite lookup_take_lt.
  - rewrite lookup_take_ge by lia. symmetry. now apply lookup_ge_None_2.
Qed.

Lemma clip_lookup_in (d : Buffer.t) (w : Z) (bs : list Z) (k : nat) :
  (Z.to_nat w <= k < Z.to_nat w + List.length bs)%nat ->
  (k < List.length d)%nat ->
  clip d w bs !! k = bs !! (k - Z.to_nat w)%nat.
Proof.
  intros Hk Hlt. unfold clip, splice.
  rewrite lookup_take_lt by lia.
  rewrite lookup_app_r by (rewrite length_take; lia).
  rewrite length_take, Nat.min_l by lia.
  now rewrite lookup_app_l by lia.
Qed.

Lemma clip_lookup_after (d : Buffer.t) (w : Z) (bs : list Z) (k : nat) :
  (Z.to_nat w + List.length bs <= k)%nat -> clip d w bs !! k = d !! k.
Proof.
  intros Hk. unfold clip, splice.
  destruct (Nat.lt_ge_cases k (List.length d)) as [Hlt|Hge].
  - rewrite lookup_take_lt by lia.
    rewrite lookup_app_r by (rewrite length_take; lia).
    rewrite length_take, Nat.min_l by lia.
    rewrite lookup_app_r by lia.
    rewrite lookup_drop. f_equal. lia.
  - rewrite lookup_take_ge by lia. symmetry. now apply lookup_ge_None_2.
Qed.

Lemma clip_lookup_out (d : Buffer.t) (w : Z) (bs : list Z) (k : nat) :
  (List.length d <= k)%nat -> clip d w bs !! k = None.
Proof. intros Hk. apply lookup_ge_None_2. now rewrite clip_length. Qed.

(** With room nothing is cut. *)
Lemma clip_room (d : Buffer.t) (w : Z) (bs : list Z) :
  0 <= w -> w + Z.of_nat (List.length bs) <= Buffer.length d ->
  clip d w bs = splice d w bs.
Proof.
  intros Hw Hroom. unfold clip. apply take_ge.
  now rewrite splice_length.
Qed.

(** At or past the end nothing is stored. *)
Lemma clip_past (d : Buffer.t) (w : Z) (bs : list Z) :
  Buffer.length d <= w -> clip d w bs = d.
Proof.
  intros Hw. unfold clip, splice, Buffer.length in *.
  rewrite (take_ge d (Z.to_nat w)) by lia. now rewrite take_app_length.
Qed.

(** The block move of the platform is a clipped store. *)
Lemma list_inserts_clip (d : Buffer.t) (i : nat) (bs : list Z) :
  list_inserts i bs d = clip d (Z.of_nat i) bs.
Proof.
  apply list_eq. intros k.
  destruct (Nat.lt_ge_cases k i) as [Hlt|Hge].
  - rewrite list_lookup_inserts_lt by lia.
    now rewrite clip_lookup_before by lia.
  - destruct (Nat.lt_ge_cases k (i + List.length bs)) as [Hin|Hout].
    + destruct (Nat.lt_ge_cases k (List.length d)) as [Hd|Hd].
      * rewrite list_lookup_inserts by lia.
        rewrite clip_lookup_in by lia. f_equal. lia.
      * rewrite clip_lookup_out by lia.
        apply lookup_ge_None_2. now rewrite length_inserts.
    + rewrite list_lookup_inserts_ge by lia.
      now rewrite clip_lookup_after by lia.
Qed.

(** One element store is a clipped store of one byte. *)
Lemma set_clip (d : Buffer.t) (i v : Z) :
  0 <= i -> Buffer.set d i v = clip d i [v mod 256].
Proof.
  intros Hi. unfold Buffer.set, Buffer.length.
  destruct (Z.leb_spec 0 i); [|lia]. cbn [andb].
  destruct (Z.ltb_spec i (Z.of_nat (List.length d))) as [Hlt|Hge].
  - rewrite <- (Z2Nat.id i) at 2 by lia.
    now rewrite <- list_inserts_clip.
  - symmetry. apply clip_past. unfold Buffer.length. lia.
Qed.

Lemma set_length (d : Buffer.t) (i v : Z) :
  List.length (Buffer.set d i v) = List.length d.
Proof.
  unfold Buffer.set. destruct (_ && _); [apply length_insert | reflexivity].
Qed.

(** Reading a buffer after one element store. *)
Lemma set_lookup (d : Buffer.t) (i v : Z) (k : nat) :
  Buffer.set d i v !! k
  = if decide (Z.of_nat k = i /\ (k < List.length d)%nat)
    then Some (v mod 256) else d !! k.
Proof.
  unfold Buffer.set, Buffer.length.
  destruct (Z.leb_spec 0 i) as [Hi|Hi]; cbn [andb].
  - destruct (Z.ltb_spec i (Z.of_nat (List.length d))) as [Hlt|Hge].
    + destruct (decide (Z.of_nat k = i /\ (k < List.length d)%nat))
        as [[<- Hk]|Hne].
      * rewrite Nat2Z.id. now apply list_lookup_insert_eq.
      * apply list_lookup_insert_ne. lia.
    + rewrite decide_False by lia. reflexivity.
  - rewrite decide_False by lia. reflexivity.
Qed.

End Clip.

(** ** Fixed-width stores in the unchecked mode *)

Section IntegerOverflow.
Import Bytes.

Local Ltac settle_stores :=
  repeat first
    [ rewrite decide_True by (rewrite ?set_length; lia)
    | rewrite decide_False by (rewrite ?set_length; lia) ].

(** The element stores of an unchecked fixed-width write, byte by byte:
    those that fall outside the buffer are dropped. *)
Lemma call_int_clip (op : int_write) (v : Z) (d : Buffer.t) (w : Z) :
  0 <= w < 2 ^ 32 ->
  call_int op v (live d w)
  = Done tt (live (clip d w (wire_bytes op v)) (w + Z.of_nat (width op))).
Proof.
  intros Hw.
  assert (Hdata : forall d' : Buffer.t,
             d' = clip d w (wire_bytes op v) ->
             Done tt {| data := Some d';
                        written := Some (w + Z.of_nat (width op)) |}
             = Done tt (live (clip d w (wire_bytes op v))
                          (w + Z.of_nat (width op))))
    by (intros d' ->; reflexivity).
  destruct op;
    unfold call_int, writeU8, writeU16, writeU16BE, writeU32, writeU32BE,
      writeI8, writeI16, writeI16BE, writeI32, writeI32BE, on_data, live;
    cbn [data written num];
    unfold Buffer.writeUInt8, Buffer.writeUInt16LE, Buffer.writeUInt16BE,
      Buffer.writeUInt32LE, Buffer.writeUInt32BE, Buffer.writeInt8,
      Buffer.writeInt16LE, Buffer.writeInt16BE, Buffer.writeInt32LE,
      Buffer.writeInt32BE;
    rewrite toUint32_small by lia;
    apply Hdata; clear Hdata;
    apply list_eq; intros k;
    rewrite !set_lookup;
    (destruct (Nat.lt_ge_cases k (Z.to_nat w)) as [Hlt|Hge];
     [ rewrite clip_lookup_before by lia; settle_stores; reflexivity |]);
    (match goal with
     | |- _ = clip _ _ ?bs !! _ =>
         destruct (Nat.lt_ge_cases k (Z.to_nat w + List.length bs))
           as [Hin|Hout]
     end;
     [| rewrite clip_lookup_after by lia;
        rewrite wire_bytes_length in Hout; cbn [width] in Hout;
        settle_stores; reflexivity ]);
    rewrite wire_bytes_length in Hin; cbn [width] in Hin;
    (destruct (Nat.lt_ge_cases k (List.length d)) as [Hd|Hd];
     [| rewrite clip_lookup_out by lia; settle_stores;
        now apply lookup_ge_None_2 ]);
    rewrite clip_lookup_in by (rewrite ?wire_bytes_length; cbn [width]; lia);
    remember (k - Z.to_nat w)%nat as j eqn:Ej;
    do 4 (try destruct j as [|j]); try lia;
    settle_stores;
    unfold wire_bytes, be_bytes;
    cbn [big_endian width le_bytes rev app lookup list_lookup];
    rewrite ?ushr_8, ?ushr_16, ?ushr_24; reflexivity.
Qed.

End IntegerOverflow.

(** ** Block moves at any cursor *)

Section BlockMoves.

Lemma clip_nil (d : Buffer.t) (w : Z) : clip d w [] = d.
Proof.
  unfold clip, splice. cbn [List.length app]. rewrite Nat.add_0_r, take_drop.
  now apply take_ge.
Qed.

(** Bytes that would fall outside the buffer may as well not be offered. *)
Lemma clip_take (d : Buffer.t) (w : Z) (bs : list Z) (n : nat) :
  (List.length d <= Z.to_nat w + n)%nat ->
  clip d w (take n bs) = clip d w bs.
Proof.
  intros Hn. apply list_eq. intros k.
  destruct (Nat.lt_ge_cases k (List.length d)) as [Hd|Hd];
    [|now rewrite !clip_lookup_out by lia].
  destruct (Nat.lt_ge_cases k (Z.to_nat w)) as [Hlt|Hge];
    [now rewrite !clip_lookup_before by lia|].
  destruct (Nat.lt_ge_cases k (Z.to_nat w + List.length bs)) as [Hin|Hout].
  - rewrite (clip_lookup_in d w bs) by lia.
    rewrite clip_lookup_in by (rewrite ?length_take; lia).
    apply lookup_take_lt. lia.
  - rewrite (clip_lookup_after d w bs) by lia.
    apply clip_lookup_after. rewrite length_take. lia.
Qed.

(** [src.copy(target, w, start, end)] for a range of the source: the bytes
    of the range that fit are laid at [w]. *)
Lemma copy_clip (src d : Buffer.t) (w start end_ : Z) :
  0 <= start < end_ -> end_ <= Buffer.length src -> 0 <= w ->
  Buffer.copy src d w start end_
  = Some (clip d w (take (Z.to_nat (end_ - start)) (drop (Z.to_nat start) src))).
Proof.
  intros Hrange Hend Hw. unfold Buffer.copy.
  destruct (Z.ltb_spec w 0); [lia|].
  destruct (Z.ltb_spec start 0); [lia|].
  destruct (Z.ltb_spec end_ 0); [lia|].
  destruct (Z.leb_spec end_ start); [lia|].
  destruct (Z.ltb_spec (Buffer.length src) start); [lia|].
  cbn [orb]. rewrite orb_false_r.
  destruct (Z.leb_spec (Buffer.length d) w) as [Hpast|Hin].
  - now rewrite clip_past.
  - f_equal. rewrite list_inserts_clip, Z2Nat.id by lia.
    rewrite (Z.min_l _ (Buffer.length src - start)) by lia.
    destruct (Z.le_ge_cases (end_ - start) (Buffer.length d - w)) as [Hfit|Hcut].
    + now rewrite Z.min_l by lia.
    + rewrite Z.min_r by lia.
      rewrite <- (clip_take d w (take (Z.to_nat (end_ - start)) _)
                    (Z.to_nat (Buffer.length d - w)))
        by (unfold Buffer.length; lia).
      rewrite take_take. f_equal. f_equal. lia.
Qed.

(** [writeBytes] wherever the cursor is: the bytes that fit are laid, the
    cursor moves on by the whole length. *)
Lemma writeBytes_clip (value d : Buffer.t) (w : Z) :
  0 <= w ->
  writeBytes value (live d w)
  = Done tt (live (clip d w value) (w + Buffer.length value)).
Proof.
  intros Hw. unfold writeBytes.
  destruct value as [|b value].
  - change (Buffer.length [] =? 0) with true. cbn iota.
    rewrite clip_nil. unfold Buffer.length, live. cbn [List.length].
    change (Z.of_nat 0) with 0. now rewrite Z.add_0_r.
  - assert (Hlen : 0 < Buffer.length (b :: value))
      by (unfold Buffer.length; cbn [List.length]; lia).
    destruct (Z.eqb_spec (Buffer.length (b :: value)) 0); [lia|].
    unfold live. cbn [data written num].
    rewrite copy_clip by lia.
    rewrite Z.sub_0_r. unfold Buffer.length at 1. rewrite Nat2Z.id.
    cbn [Z.to_nat drop]. now rewrite firstn_all.
Qed.

Lemma copy_negative (src d : Buffer.t) (w start end_ : Z) :
  w < 0 -> Buffer.copy src d w start end_ = None.
Proof.
  intros Hw. unfold Buffer.copy.
  destruct (Z.ltb_spec w 0); [reflexivity | lia].
Qed.

End BlockMoves.

(** ** Text *)

Section Text.

Lemma length_half (s : string) :
  exists n,
    (String.length s = (2 * n)%nat \/ String.length s = (2 * n + 1)%nat)
    /\ Z.shiftr (Buffer.strlen s) 1 = Z.of_nat n.
Proof.
  exists (Nat.div2 (String.length s)).
  pose proof (Nat.div2_odd (String.length s)) as Hd.
  unfold Buffer.strlen. rewrite Z.shiftr_div_pow2 by lia. change (2 ^ 1) with 2.
  destruct (Nat.odd (String.length s)); cbn [Nat.b2n] in Hd;
    (split; [lia|]); symmetry;
    apply Z.div_unique
      with (r := Z.of_nat (String.length s)
                 - 2 * Z.of_nat (Nat.div2 (String.length s))); lia.
Qed.

(** Where the encoding has bytes for the string, [Buffer.byteLength] counts
    them. *)
Lemma byteLength_encode (s : string) (enc : Buffer.text_encoding) :
  text_ok s enc = true ->
  Buffer.byteLength s enc = Buffer.length (Buffer.encode s enc).
Proof.
  destruct enc; cbn [text_ok Buffer.byteLength Buffer.encode]; intros Hok.
  - reflexivity.
  - unfold Buffer.strlen, Buffer.length.
    now rewrite length_map, list_ascii_length.
  - destruct (length_half s) as (n & Hn & Hshift).
    rewrite Hshift. unfold Buffer.length.
    now rewrite (hex_decode_half n s Hok Hn).
Qed.

(** With room for the whole string, a UTF-8 write cuts nothing. *)
Lemma utf8_fit_all (cs : list Ascii.ascii) :
  forall room : nat,
    (List.length (concat (map Buffer.utf8_char cs)) <= room)%nat ->
    Buffer.utf8_fit room cs = concat (map Buffer.utf8_char cs).
Proof.
  induction cs as [|c cs IH]; intros room Hroom; [reflexivity|].
  cbn [map concat Buffer.utf8_fit] in *. rewrite length_app in Hroom.
  destruct (Nat.leb_spec (List.length (Buffer.utf8_char c)) room); [|lia].
  rewrite IH by lia. reflexivity.
Qed.

Lemma write_hex_room (str : string) (d : Buffer.t) (w : Z) :
  0 <= w -> w + Buffer.length (Buffer.hex_decode str) <= Buffer.length d ->
  Buffer.length d < 2 ^ 32 ->
  Buffer.write_hex d str w = inr (splice d w (Buffer.hex_decode str)).
Proof.
  intros Hw Hroom Hmax. unfold Buffer.write_hex.
  rewrite toUint32_small by (unfold Buffer.length in *; lia).
  destruct (Z.ltb_spec (Buffer.length d - w) 0);
    [unfold Buffer.length in *; lia|].
  destruct (Z.ltb_spec (Buffer.length d) w);
    [unfold Buffer.length in *; lia|].
  rewrite andb_false_r.
  rewrite take_ge by (unfold Buffer.length in *; lia).
  apply f_equal, list_inserts_splice; [lia | exact Hroom].
Qed.

(** [b.write(s, w, enc)] with room for the bytes of the string. *)
Lemma write_room (s : string) (enc : Buffer.text_encoding) (d : Buffer.t) (w : Z) :
  text_ok s enc = true ->
  0 <= w -> w + Buffer.length (Buffer.encode s enc) <= Buffer.length d ->
  Buffer.length d < 2 ^ 32 ->
  Buffer.write d s w enc = inr (splice d w (Buffer.encode s enc)).
Proof.
  intros Hok Hw Hroom Hmax.
  assert (Hplain :
    forall bytes : list Z,
      bytes = Buffer.encode s enc ->
      (let offset := Buffer.toUint32 w in
       let remaining := Buffer.length d - offset in
       if (0 <? Buffer.strlen s) && (remaining <? 0) then inl Buffer.OutOfBounds
       else if Buffer.length d <? offset then inl Buffer.OutOfBounds
       else inr (list_inserts (Z.to_nat offset) bytes d))
      = inr (splice d w (Buffer.encode s enc))).
  { intros bytes ->. cbv zeta.
    rewrite toUint32_small by (unfold Buffer.length in *; lia).
    destruct (Z.ltb_spec (Buffer.length d - w) 0);
      [unfold Buffer.length in *; lia|].
    destruct (Z.ltb_spec (Buffer.length d) w);
      [unfold Buffer.length in *; lia|].
    rewrite andb_false_r.
    apply f_equal, list_inserts_splice; [lia | exact Hroom]. }
  destruct enc; cbn [Buffer.write].
  - cbv zeta in *. rewrite <- (Hplain (Buffer.encode s Buffer.utf8) eq_refl).
    rewrite toUint32_small by (unfold Buffer.length in *; lia).
    rewrite utf8_fit_all; [reflexivity|].
    cbn [Buffer.encode] in Hroom. unfold Buffer.length in *. lia.
  - cbv zeta in *. rewrite <- (Hplain (Buffer.encode s Buffer.ascii) eq_refl).
    rewrite toUint32_small by (unfold Buffer.length in *; lia).
    rewrite take_ge; [reflexivity|]. unfold Buffer.length in *. lia.
  - now apply write_hex_room.
Qed.

Lemma writeString_live (value : string) (enc : Buffer.text_encoding)
    (d : Buffer.t) (w : Z) :
  text_ok value enc = true ->
  0 <= w -> w + Buffer.length (Buffer.encode value enc) <= Buffer.length d ->
  Buffer.length d < 2 ^ 32 ->
  writeString value enc (live d w)
  = Done tt (live (splice d w (Buffer.encode value enc))
               (w + Buffer.length (Buffer.encode value enc))).
Proof.
  intros Hok Hw Hroom Hmax. unfold writeString.
  destruct (Z.eqb_spec (Buffer.strlen value) 0) as [Hempty|Hne].
  - assert (value = EmptyString) as ->.
    { destruct value; [reflexivity|]. unfold Buffer.strlen in Hempty.
      cbn [String.length] in Hempty. lia. }
    assert (Buffer.encode EmptyString enc = []) as -> by (destruct enc; reflexivity).
    unfold splice, live, Buffer.length. cbn [List.length app].
    rewrite Nat.add_0_r, take_drop. change (Z.of_nat 0) with 0.
    now rewrite Z.add_0_r.
  - unfold live. cbn [data written num].
    rewrite write_room by assumption.
    now rewrite byteLength_encode.
Qed.

End Text.

(** ** Sequences of writes *)

Section Layout.
Context `{Digest}.

Lemma call_int_live (op : int_write) (v : Z) (d : Buffer.t) (w : Z) :
  0 <= w -> w + Z.of_nat (width op) <= Buffer.length d ->
  Buffer.length d < 2 ^ 32 ->
  call_int op v (live d w)
  = Done tt (live (splice d w (wire_bytes op v)) (w + Z.of_nat (width op))).
Proof.
  intros Hw Hroom Hmax. rewrite call_int_clip by lia.
  now rewrite clip_room by (rewrite ?wire_bytes_length; lia).
Qed.

Lemma splice_nil (d : Buffer.t) (w : Z) : splice d w [] = d.
Proof.
  unfold splice. cbn [List.length app]. now rewrite Nat.add_0_r, take_drop.
Qed.

Lemma copy_live (value d : Buffer.t) (start end_ w : Z) :
  0 <= start <= end_ -> end_ <= Buffer.length value ->
  0 <= w -> w + (end_ - start) <= Buffer.length d ->
  copy value start end_ (live d w)
  = Done tt (live (splice d w (take (Z.to_nat (end_ - start))
                                 (drop (Z.to_nat start) value)))
               (w + (end_ - start))).
Proof.
  intros Hrange Hend Hw Hroom. unfold copy. cbv zeta.
  destruct (Z.eqb_spec (end_ - start) 0) as [Hz|Hnz].
  - rewrite Hz. cbn [Z.to_nat take]. rewrite splice_nil, Z.add_0_r. reflexivity.
  - unfold live. cbn [data written num].
    rewrite copy_clip by lia.
    rewrite clip_room; [reflexivity | lia |].
    rewrite length_take, length_drop. unfold Buffer.length in *. lia.
Qed.

Lemma fill_live (value size : Z) (d : Buffer.t) (w : Z) :
  0 <= size -> 0 <= w -> w + size <= Buffer.length d ->
  fill value size (live d w)
  = Done tt (live (splice d w (repeat (Z.land value 255) (Z.to_nat size)))
               (w + size)).
Proof.
  intros Hsize Hw Hroom. unfold fill, mbind, method_bind, bind, assert.
  destruct (Z.leb_spec 0 size); [|lia].
  unfold mret, method_ret, ret.
  destruct (Z.eqb_spec size 0) as [->|Hnz].
  - cbn [Z.to_nat repeat]. rewrite splice_nil, Z.add_0_r. reflexivity.
  - unfold live. cbn [data written num]. unfold Buffer.fill.
    destruct (Z.ltb_spec w 0); [lia|].
    destruct (Z.ltb_spec (Buffer.length d) (w + size)); [lia|].
    destruct (Z.leb_spec (w + size) w); [lia|].
    cbn [orb]. replace (w + size - w) with size by lia.
    rewrite list_inserts_splice; [reflexivity | lia |].
    rewrite repeat_length. lia.
Qed.

Lemma writeNullString_live (value : string) (enc : Buffer.text_encoding)
    (d : Buffer.t) (w : Z) :
  text_ok value enc = true ->
  0 <= w ->
  w + Buffer.length (Buffer.encode value enc ++ [0]) <= Buffer.length d ->
  Buffer.length d < 2 ^ 32 ->
  writeNullString value enc (live d w)
  = Done tt (live (splice d w (Buffer.encode value enc ++ [0]))
               (w + Buffer.length (Buffer.encode value enc ++ [0]))).
Proof.
  intros Hok Hw Hroom Hmax.
  unfold Buffer.length in Hroom. rewrite length_app in Hroom.
  cbn [List.length] in Hroom.
  unfold writeNullString, mbind, method_bind, bind.
  rewrite writeString_live
    by first [assumption | unfold Buffer.length in *; lia].
  change (writeU8 0) with (call_int U8 0).
  rewrite call_int_live.
  - change (wire_bytes U8 0) with [0].
    rewrite splice_splice by (unfold Buffer.length in *; cbn [List.length]; lia).
    unfold Buffer.length. rewrite length_app. cbn [List.length width].
    do 2 f_equal. lia.
  - unfold Buffer.length. lia.
  - unfold Buffer.length at 2. rewrite splice_length
      by (unfold Buffer.length in *; lia).
    unfold Buffer.length in *. cbn [width]. lia.
  - unfold Buffer.length. rewrite splice_length
      by (unfold Buffer.length in *; lia).
    exact Hmax.
Qed.

Lemma writeHash_live (value : Hash) (d : Buffer.t) (w : Z) :
  write_ok (WHash value) = true ->
  0 <= w -> w + 32 <= Buffer.length d -> Buffer.length d < 2 ^ 32 ->
  writeHash value (live d w)
  = Done tt (live (splice d w (bytes_of [] (WHash value))) (w + 32)).
Proof.
  intros Hok Hw Hroom Hmax. destruct value as [b|str]; cbn [write_ok] in Hok;
    unfold writeHash, mbind, method_bind, bind, assert; cbn [bytes_of].
  - rewrite Hok. unfold mret, method_ret, ret.
    apply Z.eqb_eq in Hok.
    rewrite writeBytes_live by lia. now rewrite Hok.
  - apply andb_true_iff in Hok. destruct Hok as [Hlen Hhex]. rewrite Hlen.
    apply Z.eqb_eq in Hlen.
    unfold mret, method_ret, ret, live. cbn [data written num].
    now rewrite write_hex_live.
Qed.

Lemma writeChecksum_live (d : Buffer.t) (w : Z) :
  0 <= w -> w + 4 <= Buffer.length d ->
  writeChecksum (live d w)
  = Done tt (live (splice d w (take 4 (hash256 (take (Z.to_nat w) d))))
               (w + 4)).
Proof.
  intros Hw Hroom. unfold writeChecksum, live. cbn [data written num].
  rewrite slice_prefix by lia.
  rewrite (copy_prefix _ d w 4); [reflexivity | | lia | lia].
  unfold Buffer.length. rewrite hash256_size. lia.
Qed.

Lemma hash_bytes_length (value : Hash) :
  write_ok (WHash value) = true ->
  Buffer.length (bytes_of [] (WHash value)) = 32.
Proof.
  destruct value as [b|str]; cbn [write_ok bytes_of]; intros Hok.
  - now apply Z.eqb_eq.
  - apply andb_true_iff in Hok. destruct Hok as [Hlen Hhex].
    apply Z.eqb_eq in Hlen. unfold Buffer.length, Buffer.strlen in *.
    rewrite (hex_decode_length 32 str Hhex); lia.
Qed.

(** One write on a writer with room: its bytes are laid at the cursor, the
    cursor moves past them. *)
Lemma run_write_live (x : write) (d : Buffer.t) (w : Z) :
  write_ok x = true ->
  0 <= w ->
  w + Buffer.length (bytes_of (take (Z.to_nat w) d) x) <= Buffer.length d ->
  Buffer.length d < 2 ^ 32 ->
  run_write x (live d w)
  = Done tt (live (splice d w (bytes_of (take (Z.to_nat w) d) x))
               (w + Buffer.length (bytes_of (take (Z.to_nat w) d) x))).
Proof.
  intros Hok Hw Hroom Hmax.
  destruct x as [op v|b|b s e|s enc|h|s enc| |v n];
    cbn [run_write bytes_of write_ok] in *.
  - assert (Hlen : Buffer.length (wire_bytes op v) = Z.of_nat (width op))
      by (unfold Buffer.length; now rewrite wire_bytes_length).
    rewrite Hlen in *. now apply call_int_live.
  - now apply writeBytes_live.
  - apply andb_true_iff in Hok. destruct Hok as [Hok He].
    apply andb_true_iff in Hok. destruct Hok as [Hs Hse].
    apply Z.leb_le in Hs, Hse, He.
    assert (Hlen : Buffer.length (take (Z.to_nat (e - s)) (drop (Z.to_nat s) b))
                   = e - s).
    { unfold Buffer.length in *. rewrite length_take, length_drop. lia. }
    rewrite Hlen in *. apply copy_live; lia.
  - now apply writeString_live.
  - pose proof (hash_bytes_length h Hok) as Hlen.
    assert (Hb : bytes_of (take (Z.to_nat w) d) (WHash h) = bytes_of [] (WHash h))
      by (destruct h; reflexivity).
    cbn [bytes_of] in Hb, Hlen. rewrite Hlen in *.
    now apply writeHash_live.
  - now apply writeNullString_live.
  - assert (Hlen : Buffer.length (take 4 (hash256 (take (Z.to_nat w) d))) = 4).
    { unfold Buffer.length. now rewrite length_take, hash256_size. }
    rewrite Hlen in *. now apply writeChecksum_live.
  - apply Z.leb_le in Hok.
    assert (Hlen : Buffer.length (repeat (Z.land v 255) (Z.to_nat n)) = n).
    { unfold Buffer.length. rewrite repeat_length. lia. }
    rewrite Hlen in *. now apply fill_live.
Qed.

Lemma splice_take_through (d : Buffer.t) (w : Z) (bs : list Z) :
  0 <= w -> w + Buffer.length bs <= Buffer.length d ->
  take (Z.to_nat (w + Buffer.length bs)) (splice d w bs)
  = take (Z.to_nat w) d ++ bs.
Proof.
  intros Hw Hroom. unfold splice, Buffer.length in *.
  rewrite app_assoc. apply take_app_length'.
  rewrite length_app, length_take. lia.
Qed.

(** A sequence of writes on a writer with room: the bytes of the writes are
    laid one after the other from the cursor on. *)
Lemma run_writes_live (xs : list write) :
  forall (d : Buffer.t) (w : Z),
    forallb write_ok xs = true ->
    0 <= w ->
    w + Buffer.length (layout (take (Z.to_nat w) d) xs) <= Buffer.length d ->
    Buffer.length d < 2 ^ 32 ->
    run_writes xs (live d w)
    = Done tt (live (splice d w (layout (take (Z.to_nat w) d) xs))
                 (w + Buffer.length (layout (take (Z.to_nat w) d) xs))).
Proof.
  induction xs as [|x xs IH]; intros d w Hok Hw Hroom Hmax.
  - cbn [run_writes layout]. rewrite splice_nil.
    unfold Buffer.length. cbn [List.length]. change (Z.of_nat 0) with 0.
    now rewrite Z.add_0_r.
  - cbn [forallb] in Hok. apply andb_true_iff in Hok. destruct Hok as [Hx Hxs].
    cbn [run_writes layout] in *. cbv zeta in *.
    set (before := take (Z.to_nat w) d) in *.
    set (bs := bytes_of before x) in *.
    assert (Hsplit : Buffer.length (bs ++ layout (before ++ bs) xs)
                     = Buffer.length bs + Buffer.length (layout (before ++ bs) xs))
      by (unfold Buffer.length; rewrite length_app; lia).
    rewrite Hsplit in *.
    assert (Hnn : 0 <= Buffer.length (layout (before ++ bs) xs))
      by (unfold Buffer.length; lia).
    assert (Hbs : 0 <= Buffer.length bs) by (unfold Buffer.length; lia).
    unfold mbind, method_bind, bind.
    rewrite run_write_live by (try assumption; fold before; fold bs; lia).
    fold before. fold bs.
    assert (Hbefore : take (Z.to_nat (w + Buffer.length bs)) (splice d w bs)
                      = before ++ bs) by (apply splice_take_through; lia).
    assert (Hlen' : Buffer.length (splice d w bs) = Buffer.length d).
    { unfold Buffer.length.
      rewrite splice_length; [reflexivity | lia | unfold Buffer.length in *; lia]. }
    rewrite IH; rewrite ?Hbefore, ?Hlen'; try assumption; try lia.
    rewrite splice_splice by (fold (Buffer.length bs);
                              fold (Buffer.length (layout (before ++ bs) xs)); lia).
    do 2 f_equal. lia.
Qed.

(** X1.  A sequence of writes (fixed-width integers, byte blocks, ranges
    of a buffer, strings, hashes, NUL-terminated strings, checksums, fills)
    with arguments of the expected kind, on a fresh writer at least as large
    as the bytes they lay, lays exactly their bytes one after the other from
    the start and leaves the cursor behind the last: what was in the
    allocated memory under them does not matter.  When the bytes fill the
    buffer exactly, [render] returns them; when they leave room, [render]
    fails its assertion. *)
Theorem writes_layout (xs : list write) (mem : Buffer.t) :
  forallb write_ok xs = true ->
  Buffer.length (layout [] xs) <= Buffer.length mem ->
  Buffer.length mem < 2 ^ 32 ->
  run_writes xs (create mem)
  = Done tt (live (layout [] xs ++ drop (List.length (layout [] xs)) mem)
               (Buffer.length (layout [] xs)))
  /\ (Buffer.length (layout [] xs) = Buffer.length mem ->
      (run_writes xs ;; render false) (create mem)
      = Done (layout [] xs) destroyed)
  /\ (Buffer.length (layout [] xs) < Buffer.length mem ->
      forall keep,
        (run_writes xs ;; render keep) (create mem)
        = Throw (AssertionError None)
            (live (layout [] xs ++ drop (List.length (layout [] xs)) mem)
               (Buffer.length (layout [] xs)))).
Proof.
  intros Hok Hroom Hmax.
  assert (Hrun : run_writes xs (create mem)
                 = Done tt (live (layout [] xs
                                  ++ drop (List.length (layout [] xs)) mem)
                              (Buffer.length (layout [] xs)))).
  { change (create mem) with (live mem 0).
    rewrite run_writes_live by (try assumption; cbn [Z.to_nat take]; lia).
    cbn [Z.to_nat take]. unfold splice. cbn [Z.to_nat take app Nat.add].
    now rewrite Z.add_0_l. }
  split; [exact Hrun|]. split.
  - intros Hfull. unfold mbind, method_bind, bind. rewrite Hrun.
    assert (Hdrop : drop (List.length (layout [] xs)) mem = []).
    { apply drop_ge. unfold Buffer.length in Hfull. lia. }
    rewrite Hdrop, app_nil_r, render_live, Z.eqb_refl. reflexivity.
  - intros Hless keep. unfold mbind, method_bind, bind. rewrite Hrun.
    rewrite render_live.
    destruct (Z.eqb_spec (Buffer.length (layout [] xs))
                (Buffer.length (layout [] xs
                                ++ drop (List.length (layout [] xs)) mem)))
      as [Heq|Hne]; [|reflexivity].
    unfold Buffer.length in *. rewrite length_app, length_drop in Heq. lia.
Qed.

End Layout.

Lemma writes_layout_witness :
  (forallb write_ok sample_writes = true
   /\ Buffer.length (@layout sum_Digest [] sample_writes)
      <= Buffer.length (repeat 9 27)
   /\ Buffer.length (repeat 9 27) < 2 ^ 32
   /\ Buffer.length (@layout sum_Digest [] sample_writes)
      = Buffer.length (repeat 9 27))
  /\ (@run_writes sum_Digest sample_writes ;; render false)
       (create (repeat 9 27))
     = Done [196; 225; 216; 236; 116; 120; 0; 0; 0; 0; 0; 0; 0; 0; 0; 0;
             3; 0; 0; 0; 231; 231; 231; 231; 1; 2; 3] destroyed.
Proof.
  assert (H1 : forallb write_ok sample_writes = true) by reflexivity.
  assert (H2 : Buffer.length (@layout sum_Digest [] sample_writes)
               <= Buffer.length (repeat 9 27)) by (vm_compute; easy).
  assert (H3 : Buffer.length (repeat 9 27) < 2 ^ 32) by reflexivity.
  assert (H4 : Buffer.length (@layout sum_Digest [] sample_writes)
               = Buffer.length (repeat 9 27)) by reflexivity.
  split; [auto|].
  exact (proj1 (proj2 (@writes_layout sum_Digest sample_writes (repeat 9 27)
                         H1 H2 H3)) H4).
Defined.

(** ** Block writes past the end *)

Section Overflow.
Import Bytes.

Lemma clip_take_before (d : Buffer.t) (w : Z) (bs : list Z) :
  take (Z.to_nat w) (clip d w bs) = take (Z.to_nat w) d.
Proof.
  apply list_eq. intros k.
  destruct (Nat.lt_ge_cases k (Z.to_nat w)) as [Hlt|Hge].
  - rewrite !lookup_take_lt by lia. now apply clip_lookup_before.
  - now rewrite !lookup_take_ge by lia.
Qed.

(** X3.  [writeBytes] at a cursor that is not negative never fails and
    never changes the size of the buffer: the bytes that fit are copied, the
    rest is dropped, and the cursor moves on by the whole length, so that a
    copy running over the end is only noticed by the assertion of [render].
    At a negative cursor a non-empty [writeBytes] throws a [RangeError] and
    leaves the writer as it was. *)
Theorem writeBytes_any_cursor (value d : Buffer.t) (w : Z) :
  (0 <= w ->
   writeBytes value (live d w)
   = Done tt (live (clip d w value) (w + Buffer.length value))
   /\ List.length (clip d w value) = List.length d
   /\ take (Z.to_nat w) (clip d w value) = take (Z.to_nat w) d
   /\ (Buffer.length d <= w -> clip d w value = d)
   /\ (Buffer.length d < w + Buffer.length value ->
       forall keep,
         (writeBytes value ;; render keep) (live d w)
         = Throw (AssertionError None)
             (live (clip d w value) (w + Buffer.length value))))
  /\ (w < 0 -> value <> [] ->
      writeBytes value (live d w) = Throw RangeError (live d w)).
Proof.
  split.
  - intros Hw. split; [now apply writeBytes_clip|].
    split; [apply clip_length|]. split; [apply clip_take_before|].
    split; [apply clip_past|].
    intros Hover keep. unfold mbind, method_bind, bind.
    rewrite writeBytes_clip by lia. rewrite render_live.
    destruct (Z.eqb_spec (w + Buffer.length value)
                (Buffer.length (clip d w value))) as [Heq|Hne];
      [|reflexivity].
    unfold Buffer.length in *. rewrite clip_length in Heq. lia.
  - intros Hw Hne. unfold writeBytes.
    destruct value as [|b value]; [contradiction|].
    destruct (Z.eqb_spec (Buffer.length (b :: value)) 0) as [Hz|_].
    { unfold Buffer.length in Hz. cbn [List.length] in Hz. lia. }
    unfold live. cbn [data written num].
    now rewrite copy_negative.
Qed.

Lemma writeBytes_any_cursor_witness :
  (0 <= 2 /\ Buffer.length [9; 9; 9] < 2 + Buffer.length [1; 2; 3]
   /\ -1 < 0 /\ [1; 2; 3] <> [])
  /\ writeBytes [1; 2; 3] (live [9; 9; 9] 2) = Done tt (live [9; 9; 1] 5)
  /\ (writeBytes [1; 2; 3] ;; render false) (live [9; 9; 9] 2)
     = Throw (AssertionError None) (live [9; 9; 1] 5)
  /\ writeBytes [1; 2; 3] (live [9; 9; 9] (-1))
     = Throw RangeError (live [9; 9; 9] (-1)).
Proof.
  assert (H1 : 0 <= 2) by lia.
  assert (H2 : Buffer.length [9; 9; 9] < 2 + Buffer.length [1; 2; 3])
    by reflexivity.
  assert (H3 : -1 < 0) by lia.
  assert (H4 : [1; 2; 3] <> ([] : list Z)) by discriminate.
  split; [auto|].
  destruct (proj1 (writeBytes_any_cursor [1; 2; 3] [9; 9; 9] 2) H1)
    as (Hcall & _ & _ & _ & Hrender).
  split; [exact Hcall|]. split; [exact (Hrender H2 false)|].
  exact (proj2 (writeBytes_any_cursor [1; 2; 3] [9; 9; 9] (-1)) H3 H4).
Defined.

End Overflow.

(** ** Signed and unsigned writes *)

Section Truncation.
Import Bytes.

Lemma toUint32_idem (x : Z) : Buffer.toUint32 (Buffer.toUint32 x) = Buffer.toUint32 x.
Proof. unfold Buffer.toUint32. apply Z.mod_mod. lia. Qed.

Lemma toUint32_range (x : Z) : 0 <= Buffer.toUint32 x < 2 ^ 32.
Proof. unfold Buffer.toUint32. apply Z.mod_pos_bound. lia. Qed.

(** A fixed-width write sees the cursor through [>>> 0] only. *)
Lemma call_int_cursor (op : int_write) (v : Z) (s : StaticWriter) (d : Buffer.t) :
  data s = Some d ->
  call_int op v s = call_int op v (live d (Buffer.toUint32 (num (written s)))).
Proof.
  intros Hd.
  destruct op;
    unfold call_int, writeU8, writeU16, writeU16BE, writeU32, writeU32BE,
      writeI8, writeI16, writeI16BE, writeI32, writeI32BE, on_data, live;
    cbn [data written num]; rewrite Hd;
    unfold Buffer.writeUInt8, Buffer.writeUInt16LE, Buffer.writeUInt16BE,
      Buffer.writeUInt32LE, Buffer.writeUInt32BE, Buffer.writeInt8,
      Buffer.writeInt16LE, Buffer.writeInt16BE, Buffer.writeInt32LE,
      Buffer.writeInt32BE;
    rewrite toUint32_idem; reflexivity.
Qed.

Lemma le_bytes_mod (k : nat) :
  forall v : Z, le_bytes k (v mod 256 ^ Z.of_nat k) = le_bytes k v.
Proof.
  induction k as [|k IH]; intros v; [reflexivity|].
  cbn [le_bytes]. rewrite Nat2Z.inj_succ, Z.pow_succ_r by lia.
  assert (Hp : 0 < 256 ^ Z.of_nat k) by (apply Z.pow_pos_nonneg; lia).
  rewrite Z.rem_mul_r by lia. f_equal.
  - rewrite (Z.mul_comm 256), Z.mod_add by lia. apply Z.mod_mod. lia.
  - rewrite (Z.mul_comm 256), Z.div_add by lia.
    rewrite (Z.div_small (v mod 256)) by (apply Z.mod_pos_bound; lia).
    rewrite Z.add_0_l. apply IH.
Qed.

Lemma wire_bytes_mod (op : int_write) (v : Z) :
  wire_bytes op (v mod 256 ^ Z.of_nat (width op)) = wire_bytes op v.
Proof.
  unfold wire_bytes, be_bytes. now rewrite le_bytes_mod.
Qed.

(** X4.  Two's complement: a value of a signed type is written by the
    signed method exactly as the unsigned method of the same width and byte
    order writes its residue modulo 256 to the power of the width, which is
    a value of the unsigned type; so [writeI8(-1)] is [writeU8(255)], on
    every writer state. *)
Theorem signed_as_unsigned (op : int_write) (v : Z) (s : StaticWriter) :
  in_range op v ->
  in_range (unsigned_of op) (v mod 256 ^ Z.of_nat (width op))
  /\ call_int op v s
     = call_int (unsigned_of op) (v mod 256 ^ Z.of_nat (width op)) s.
Proof.
  intros _. split.
  - assert (Hm : 0 <= v mod 256 ^ Z.of_nat (width op) < 256 ^ Z.of_nat (width op))
      by (apply Z.mod_pos_bound, Z.pow_pos_nonneg; lia).
    destruct op; exact Hm.
  - destruct (data s) as [d|] eqn:Hd.
    + rewrite !(call_int_cursor _ _ s d Hd).
      rewrite !call_int_clip by apply toUint32_range.
      replace (wire_bytes (unsigned_of op) (v mod 256 ^ Z.of_nat (width op)))
        with (wire_bytes op v)
        by (rewrite <- (wire_bytes_mod op v); destruct op; reflexivity).
      destruct op; reflexivity.
    + destruct op;
        unfold call_int, unsigned_of, writeU8, writeU16, writeU16BE, writeU32,
          writeU32BE, writeI8, writeI16, writeI16BE, writeI32, writeI32BE,
          on_data;
        rewrite Hd; reflexivity.
Qed.

Lemma signed_as_unsigned_witness :
  in_range I8 (-1)
  /\ writeI8 (-1) (live [9; 9] 0) = writeU8 255 (live [9; 9] 0)
  /\ writeI8 (-1) (live [9; 9] 0) = Done tt (live [255; 9] 1).
Proof.
  assert (H1 : in_range I8 (-1)) by (vm_compute; split; easy).
  split; [exact H1|].
  split; [exact (proj2 (signed_as_unsigned I8 (-1) (live [9; 9] 0) H1))|].
  reflexivity.
Defined.

End Truncation.

(** ** Fills and ranges *)

Section FillCopy.

Lemma land_255_byte (v : Z) : 0 <= Z.land v 255 < 256.
Proof.
  change 255 with (Z.ones 8). rewrite Z.land_ones by lia.
  apply Z.mod_pos_bound. reflexivity.
Qed.

(** X5.  [fill value size] on a writer with room lays [size] copies of the
    byte [value & 255] at the cursor and advances the cursor by [size]; with
    size 0 it returns at once on any state; a negative size fails an
    assertion and leaves the writer as it was.  Unlike the other writes it
    does not run over the end: a fill that does not fit, or that starts at a
    negative cursor, throws a [RangeError] and changes nothing. *)
Theorem fill_bytes (value size : Z) :
  (forall d w,
     0 <= size -> 0 <= w -> w + size <= Buffer.length d ->
     fill value size (live d w)
     = Done tt (live (splice d w (repeat (Z.land value 255) (Z.to_nat size)))
                  (w + size)))
  /\ 0 <= Z.land value 255 < 256
  /\ (forall s, fill value 0 s = Done tt s)
  /\ (size < 0 ->
      forall s, fill value size s = Throw (AssertionError None) s)
  /\ (0 < size ->
      forall d w,
        w < 0 \/ Buffer.length d < w + size ->
        fill value size (live d w) = Throw RangeError (live d w)).
Proof.
  split; [intros d w; apply fill_live|].
  split; [apply land_255_byte|].
  split; [reflexivity|]. split.
  - intros Hneg s. unfold fill, mbind, method_bind, bind, assert.
    destruct (Z.leb_spec 0 size); [lia | reflexivity].
  - intros Hpos d w Hout. unfold fill, mbind, method_bind, bind, assert.
    destruct (Z.leb_spec 0 size); [|lia].
    unfold mret, method_ret, ret.
    destruct (Z.eqb_spec size 0); [lia|].
    unfold live. cbn [data written num]. unfold Buffer.fill.
    destruct (Z.ltb_spec w 0); [reflexivity|].
    destruct (Z.ltb_spec (Buffer.length d) (w + size)); [reflexivity | lia].
Qed.

Lemma fill_bytes_witness :
  (0 <= 2 /\ 0 <= 1 /\ 1 + 2 <= Buffer.length [9; 9; 9; 9]
   /\ -1 < 0 /\ 0 < 2 /\ (1 < 0 \/ Buffer.length [9; 9; 9; 9] < 3 + 2))
  /\ fill 0x1ff 2 (live [9; 9; 9; 9] 1) = Done tt (live [9; 255; 255; 9] 3)
  /\ fill 7 (-1) (live [9; 9; 9; 9] 1)
     = Throw (AssertionError None) (live [9; 9; 9; 9] 1)
  /\ fill 7 2 (live [9; 9; 9; 9] 3) = Throw RangeError (live [9; 9; 9; 9] 3).
Proof.
  assert (H1 : 0 <= 2) by lia.
  assert (H2 : 0 <= 1) by lia.
  assert (H3 : 1 + 2 <= Buffer.length [9; 9; 9; 9]) by (vm_compute; easy).
  assert (H4 : -1 < 0) by lia.
  assert (H5 : 0 < 2) by lia.
  assert (H6 : 1 < 0 \/ Buffer.length [9; 9; 9; 9] < 3 + 2)
    by (right; reflexivity).
  split; [auto 7|]. split; [|split].
  - exact (proj1 (fill_bytes 0x1ff 2) [9; 9; 9; 9] 1 H1 H2 H3).
  - exact (proj1 (proj2 (proj2 (proj2 (fill_bytes 7 (-1))))) H4
             (live [9; 9; 9; 9] 1)).
  - apply (proj2 (proj2 (proj2 (proj2 (fill_bytes 7 2)))) H5 [9; 9; 9; 9] 3).
    right. reflexivity.
Defined.

(** X6.  [copy value start end] for a range inside [value], on a writer
    with room, lays the bytes [value[start..end)] at the cursor and advances
    the cursor by [end - start]; with [start = end] it returns at once on any
    state; over the whole of [value] it is [writeBytes value].  The writer
    does not compare [start] and [end]: with [end < start], and [start] not
    past the end of [value], no byte is written and the cursor moves
    backwards by [start - end].  A [start] past the end of [value] is refused
    by the buffer with a [RangeError], and the writer is left as it was. *)
Theorem copy_range (value : Buffer.t) (start end_ : Z) :
  (forall d w,
     0 <= start <= end_ -> end_ <= Buffer.length value ->
     0 <= w -> w + (end_ - start) <= Buffer.length d ->
     copy value start end_ (live d w)
     = Done tt (live (splice d w (take (Z.to_nat (end_ - start))
                                    (drop (Z.to_nat start) value)))
                  (w + (end_ - start))))
  /\ (start = end_ -> forall s, copy value start end_ s = Done tt s)
  /\ (forall s, copy value 0 (Buffer.length value) s = writeBytes value s)
  /\ (0 <= end_ < start -> start <= Buffer.length value ->
      forall d w,
        0 <= w ->
        copy value start end_ (live d w)
        = Done tt (live d (w + (end_ - start))))
  /\ (Buffer.length value < start -> start <> end_ ->
      forall d w,
        copy value start end_ (live d w) = Throw RangeError (live d w)).
Proof.
  split; [intros d w; apply copy_live|]. split; [|split; [|split]].
  - intros -> s. unfold copy. cbv zeta. now rewrite Z.sub_diag.
  - intros s. unfold copy, writeBytes. cbv zeta. now rewrite Z.sub_0_r.
  - intros Hback Hstart d w Hw. unfold copy. cbv zeta.
    destruct (Z.eqb_spec (end_ - start) 0); [lia|].
    unfold live. cbn [data written num]. unfold Buffer.copy.
    destruct (Z.ltb_spec w 0); [lia|].
    destruct (Z.ltb_spec start 0); [lia|].
    destruct (Z.ltb_spec (Buffer.length value) start); [lia|].
    destruct (Z.ltb_spec end_ 0); [lia|].
    destruct (Z.leb_spec end_ start); [|lia].
    cbn [orb]. now rewrite orb_true_r.
  - intros Hpast Hne d w. unfold copy. cbv zeta.
    destruct (Z.eqb_spec (end_ - start) 0); [lia|].
    unfold live. cbn [data written num]. unfold Buffer.copy.
    destruct (Z.ltb_spec (Buffer.length value) start); [|lia].
    now rewrite !orb_true_r.
Qed.

Lemma copy_range_witness :
  ((0 <= 1 <= 3 /\ 3 <= Buffer.length [1; 2; 3; 4] /\ 0 <= 1
    /\ 1 + (3 - 1) <= Buffer.length [9; 9; 9; 9])
   /\ (0 <= 1 < 3 /\ 3 <= Buffer.length [1; 2; 3; 4] /\ 0 <= 3)
   /\ (Buffer.length [1; 2; 3; 4] < 6 /\ 6 <> 5))
  /\ copy [1; 2; 3; 4] 1 3 (live [9; 9; 9; 9] 1) = Done tt (live [9; 2; 3; 9] 3)
  /\ copy [1; 2; 3; 4] 3 1 (live [9; 9; 9; 9] 3) = Done tt (live [9; 9; 9; 9] 1)
  /\ copy [1; 2; 3; 4] 6 5 (live [9; 9; 9; 9] 1)
     = Throw RangeError (live [9; 9; 9; 9] 1).
Proof.
  assert (H1 : 0 <= 1 <= 3) by lia.
  assert (H2 : 3 <= Buffer.length [1; 2; 3; 4]) by (vm_compute; easy).
  assert (H3 : 0 <= 1) by lia.
  assert (H4 : 1 + (3 - 1) <= Buffer.length [9; 9; 9; 9]) by (vm_compute; easy).
  assert (H5 : 0 <= 1 < 3) by lia.
  assert (H6 : 0 <= 3) by lia.
  assert (H7 : Buffer.length [1; 2; 3; 4] < 6) by reflexivity.
  assert (H8 : 6 <> 5) by lia.
  split; [auto 9|]. split; [|split].
  - exact (proj1 (copy_range [1; 2; 3; 4] 1 3) [9; 9; 9; 9] 1 H1 H2 H3 H4).
  - exact (proj1 (proj2 (proj2 (proj2 (copy_range [1; 2; 3; 4] 3 1)))) H5 H2
             [9; 9; 9; 9] 3 H6).
  - exact (proj2 (proj2 (proj2 (proj2 (copy_range [1; 2; 3; 4] 6 5)))) H7 H8
             [9; 9; 9; 9] 1).
Defined.

End FillCopy.

(** ** String writes *)

Section StringWrites.

Lemma strlen_pos (value : string) :
  value <> EmptyString -> 0 < Buffer.strlen value.
Proof.
  intros Hne. destruct value; [contradiction|].
  unfold Buffer.strlen. cbn [String.length]. lia.
Qed.

Lemma write_past_end (value : string) (enc : Buffer.text_encoding)
    (d : Buffer.t) (w : Z) :
  value <> EmptyString -> Buffer.length d < w < 2 ^ 32 ->
  Buffer.write d value w enc = inl Buffer.OutOfBounds.
Proof.
  intros Hne Hw. pose proof (strlen_pos value Hne) as Hpos.
  destruct enc; cbn [Buffer.write]; unfold Buffer.write_hex; cbv zeta;
    rewrite toUint32_small by (unfold Buffer.length in *; lia);
    destruct (Z.ltb_spec 0 (Buffer.strlen value)); try lia;
    destruct (Z.ltb_spec (Buffer.length d - w) 0); try lia; reflexivity.
Qed.

(** X7.  [writeString value enc] on a writer with room lays the bytes of
    [value] in the encoding (UTF-8 when none is given, the character codes
    for ['ascii'], one byte per digit pair for ['hex']) and advances the
    cursor by their number; on the empty string it returns at once on any
    state.  Unlike [writeBytes] it does not drop what runs over: a non-empty
    string at a cursor past the end throws a [RangeError] and leaves the
    writer unchanged.  A ['hex'] string is not validated: the bytes of its
    leading hex digit pairs are written and the cursor advances by half the
    length of the string, rounded down, whatever the characters are. *)
Theorem writeString_bytes (value : string) (enc : Buffer.text_encoding) :
  (forall d w,
     text_ok value enc = true ->
     0 <= w ->
     w + Buffer.length (Buffer.encode value enc) <= Buffer.length d ->
     Buffer.length d < 2 ^ 32 ->
     writeString value enc (live d w)
     = Done tt (live (splice d w (Buffer.encode value enc))
                  (w + Buffer.length (Buffer.encode value enc))))
  /\ (forall s, writeString EmptyString enc s = Done tt s)
  /\ (value <> EmptyString ->
      forall d w,
        Buffer.length d < w < 2 ^ 32 ->
        writeString value enc (live d w) = Throw RangeError (live d w))
  /\ (forall d w,
        0 <= w ->
        w + Z.shiftr (Buffer.strlen value) 1 <= Buffer.length d ->
        Buffer.length d < 2 ^ 32 ->
        writeString value Buffer.hex (live d w)
        = Done tt (live (splice d w (Buffer.hex_decode value))
                     (w + Z.shiftr (Buffer.strlen value) 1))
        /\ Buffer.length (Buffer.hex_decode value)
           <= Z.shiftr (Buffer.strlen value) 1).
Proof.
  split; [intros d w; apply writeString_live|].
  split; [reflexivity|]. split.
  - intros Hne d w Hw. pose proof (strlen_pos value Hne) as Hpos.
    unfold writeString.
    destruct (Z.eqb_spec (Buffer.strlen value) 0); [lia|].
    unfold live. cbn [data written num].
    now rewrite write_past_end.
  - intros d w Hw Hroom Hmax.
    assert (Hle : Buffer.length (Buffer.hex_decode value)
                  <= Z.shiftr (Buffer.strlen value) 1).
    { destruct (length_half value) as (n & Hn & ->).
      destruct (hex_decode_bound (String.length value) value (le_n _))
        as [Hb _].
      unfold Buffer.length. lia. }
    split; [|exact Hle].
    unfold writeString.
    destruct (Z.eqb_spec (Buffer.strlen value) 0) as [Hempty|Hne].
    + assert (value = EmptyString) as ->.
      { destruct value; [reflexivity|]. unfold Buffer.strlen in Hempty.
        cbn [String.length] in Hempty. lia. }
      cbn [Buffer.hex_decode]. rewrite splice_nil by (cbn in Hroom; lia).
      cbn. now rewrite Z.add_0_r.
    + unfold live. cbn [data written num Buffer.write Buffer.byteLength].
      now rewrite write_hex_room by lia.
Qed.

Lemma writeString_bytes_witness :
  ((text_ok "tx" Buffer.ascii = true /\ 0 <= 1
    /\ 1 + Buffer.length (Buffer.encode "tx" Buffer.ascii)
       <= Buffer.length [9; 9; 9; 9]
    /\ Buffer.length [9; 9; 9; 9] < 2 ^ 32)
   /\ "tx"%string <> EmptyString /\ Buffer.length [9; 9; 9; 9] < 5 < 2 ^ 32
   /\ 1 + Z.shiftr (Buffer.strlen "abc") 1 <= Buffer.length [9; 9; 9; 9])
  /\ writeString "tx" Buffer.ascii (live [9; 9; 9; 9] 1)
     = Done tt (live [9; 116; 120; 9] 3)
  /\ writeString "tx" Buffer.ascii (live [9; 9; 9; 9] 5)
     = Throw RangeError (live [9; 9; 9; 9] 5)
  /\ writeString "abc" Buffer.hex (live [9; 9; 9; 9] 1)
     = Done tt (live [9; 171; 9; 9] 2).
Proof.
  assert (H1 : text_ok "tx" Buffer.ascii = true) by reflexivity.
  assert (H2 : 0 <= 1) by lia.
  assert (H3 : 1 + Buffer.length (Buffer.encode "tx" Buffer.ascii)
               <= Buffer.length [9; 9; 9; 9]) by (vm_compute; easy).
  assert (H4 : Buffer.length [9; 9; 9; 9] < 2 ^ 32) by reflexivity.
  assert (H5 : "tx"%string <> EmptyString) by discriminate.
  assert (H6 : Buffer.length [9; 9; 9; 9] < 5 < 2 ^ 32)
    by (split; reflexivity).
  assert (H7 : 1 + Z.shiftr (Buffer.strlen "abc") 1
               <= Buffer.length [9; 9; 9; 9]) by (vm_compute; easy).
  split; [auto 10|]. split; [|split].
  - exact (proj1 (writeString_bytes "tx" Buffer.ascii) [9; 9; 9; 9] 1
             H1 H2 H3 H4).
  - exact (proj1 (proj2 (proj2 (writeString_bytes "tx" Buffer.ascii))) H5
             [9; 9; 9; 9] 5 H6).
  - exact (proj1 (proj2 (proj2 (proj2 (writeString_bytes "abc" Buffer.hex)))
                    [9; 9; 9; 9] 1 H2 H7 H4)).
Defined.

Lemma writeVarBytes_live (value d : Buffer.t) (w : Z) :
  0 <= w ->
  w + Buffer.length (encoding.varint (Buffer.length value) ++ value)
  <= Buffer.length d ->
  writeVarBytes value (live d w)
  = Done tt (live (splice d w (encoding.varint (Buffer.length value) ++ value))
               (w + Buffer.length
                      (encoding.varint (Buffer.length value) ++ value))).
Proof.
  intros Hw Hroom.
  set (v := encoding.varint (Buffer.length value)) in *.
  assert (Hr : w + Z.of_nat (List.length v) + Buffer.length value
               <= Buffer.length d).
  { unfold Buffer.length in *. rewrite length_app in Hroom. lia. }
  assert (Hv : 0 <= Buffer.length value) by (unfold Buffer.length; lia).
  unfold writeVarBytes, mbind, method_bind, bind.
  fold v. rewrite writeVarint_live by (fold v; lia). fold v.
  rewrite writeBytes_live.
  - rewrite splice_splice by (unfold Buffer.length in *; lia).
    unfold Buffer.length. rewrite length_app. do 2 f_equal. lia.
  - lia.
  - unfold Buffer.length at 2.
    rewrite splice_length by (unfold Buffer.length in *; lia).
    exact Hr.
Qed.

(** X8.  [writeVarString value enc] writes a string as [writeVarBytes]
    writes its bytes: on the empty string it is [writeVarint 0], on any
    state; and for a string the encoding has bytes for, on a writer with
    room, it lays the varint of the number of bytes followed by the bytes,
    exactly as [writeVarBytes] of the encoded string does. *)
Theorem writeVarString_as_bytes (value : string) (enc : Buffer.text_encoding) :
  (forall s, writeVarString EmptyString enc s = writeVarint 0 s)
  /\ (forall d w,
        text_ok value enc = true ->
        0 <= w ->
        w + Buffer.length
              (encoding.varint (Buffer.length (Buffer.encode value enc))
               ++ Buffer.encode value enc)
        <= Buffer.length d ->
        Buffer.length d < 2 ^ 32 ->
        writeVarString value enc (live d w)
        = writeVarBytes (Buffer.encode value enc) (live d w)
        /\ writeVarString value enc (live d w)
           = Done tt
               (live (splice d w
                        (encoding.varint
                           (Buffer.length (Buffer.encode value enc))
                         ++ Buffer.encode value enc))
                  (w + Buffer.length
                         (encoding.varint
                            (Buffer.length (Buffer.encode value enc))
                          ++ Buffer.encode value enc)))).
Proof.
  split; [reflexivity|].
  intros d w Hok Hw Hroom Hmax.
  rewrite writeVarBytes_live by assumption.
  cut (writeVarString value enc (live d w)
       = Done tt
           (live (splice d w
                    (encoding.varint (Buffer.length (Buffer.encode value enc))
                     ++ Buffer.encode value enc))
              (w + Buffer.length
                     (encoding.varint (Buffer.length (Buffer.encode value enc))
                      ++ Buffer.encode value enc))));
    [intros Hmain; split; exact Hmain|].
  set (bytes := Buffer.encode value enc) in *.
  set (v := encoding.varint (Buffer.length bytes)) in *.
  assert (Hr : w + Buffer.length v + Buffer.length bytes <= Buffer.length d).
  { unfold Buffer.length in *. rewrite length_app in Hroom. lia. }
  assert (Hv : 0 <= Buffer.length v) by (unfold Buffer.length; lia).
  assert (Hb : 0 <= Buffer.length bytes) by (unfold Buffer.length; lia).
  unfold writeVarString.
  destruct (Z.eqb_spec (Buffer.strlen value) 0) as [Hempty|Hne].
  - assert (value = EmptyString) as Hval.
    { destruct value; [reflexivity|]. unfold Buffer.strlen in Hempty.
      cbn [String.length] in Hempty. lia. }
    assert (Hnil : bytes = []) by (unfold bytes; rewrite Hval; now destruct enc).
    unfold v. rewrite Hnil. rewrite app_nil_r.
    change (Buffer.length []) with 0.
    apply writeVarint_live; [lia|].
    unfold v in Hr. rewrite Hnil in Hr. change (Buffer.length []) with 0 in Hr.
    unfold Buffer.length in *. lia.
  - cbv zeta. rewrite byteLength_encode by exact Hok. fold bytes.
    unfold mbind, method_bind, bind. fold v.
    rewrite writeVarint_live by (fold v; unfold Buffer.length in *; lia).
    fold v. unfold live. cbn [data written num].
    assert (Hsl : Buffer.length (splice d w v) = Buffer.length d).
    { unfold Buffer.length.
      rewrite splice_length;
        [reflexivity | lia | unfold Buffer.length in *; lia]. }
    rewrite write_room.
    + fold bytes. rewrite splice_splice by (unfold Buffer.length in *; lia).
      unfold Buffer.length. rewrite length_app. do 3 f_equal. lia.
    + exact Hok.
    + unfold Buffer.length. lia.
    + fold bytes. rewrite Hsl. unfold Buffer.length in *. lia.
    + rewrite Hsl. exact Hmax.
Qed.

Lemma writeVarString_as_bytes_witness :
  (text_ok "tx" Buffer.ascii = true /\ 0 <= 1
   /\ 1 + Buffer.length
            (encoding.varint (Buffer.length (Buffer.encode "tx" Buffer.ascii))
             ++ Buffer.encode "tx" Buffer.ascii)
      <= Buffer.length [9; 9; 9; 9; 9]
   /\ Buffer.length [9; 9; 9; 9; 9] < 2 ^ 32)
  /\ writeVarString "tx" Buffer.ascii (live [9; 9; 9; 9; 9] 1)
     = Done tt (live [9; 2; 116; 120; 9] 4).
Proof.
  assert (H1 : text_ok "tx" Buffer.ascii = true) by reflexivity.
  assert (H2 : 0 <= 1) by lia.
  assert (H3 : 1 + Buffer.length
                     (encoding.varint
                        (Buffer.length (Buffer.encode "tx" Buffer.ascii))
                      ++ Buffer.encode "tx" Buffer.ascii)
               <= Buffer.length [9; 9; 9; 9; 9]) by (vm_compute; easy).
  assert (H4 : Buffer.length [9; 9; 9; 9; 9] < 2 ^ 32) by reflexivity.
  split; [auto|].
  exact (proj2 (proj2 (writeVarString_as_bytes "tx" Buffer.ascii)
                  [9; 9; 9; 9; 9] 1 H1 H2 H3 H4)).
Defined.

(** X9.  [writeNullString value enc] on a writer with room lays the bytes
    of the string followed by one zero byte and advances the cursor past
    them; on the empty string it is [writeU8 0], on any state. *)
Theorem writeNullString_bytes (value : string) (enc : Buffer.text_encoding) :
  (forall d w,
     text_ok value enc = true ->
     0 <= w ->
     w + Buffer.length (Buffer.encode value enc ++ [0]) <= Buffer.length d ->
     Buffer.length d < 2 ^ 32 ->
     writeNullString value enc (live d w)
     = Done tt (live (splice d w (Buffer.encode value enc ++ [0]))
                  (w + Buffer.length (Buffer.encode value enc ++ [0]))))
  /\ (forall s, writeNullString EmptyString enc s = writeU8 0 s).
Proof.
  split; [intros d w; apply writeNullString_live|]. reflexivity.
Qed.

Lemma writeNullString_bytes_witness :
  (text_ok "tx" Buffer.ascii = true /\ 0 <= 1
   /\ 1 + Buffer.length (Buffer.encode "tx" Buffer.ascii ++ [0])
      <= Buffer.length [9; 9; 9; 9; 9]
   /\ Buffer.length [9; 9; 9; 9; 9] < 2 ^ 32)
  /\ writeNullString "tx" Buffer.ascii (live [9; 9; 9; 9; 9] 1)
     = Done tt (live [9; 116; 120; 0; 9] 4).
Proof.
  assert (H1 : text_ok "tx" Buffer.ascii = true) by reflexivity.
  assert (H2 : 0 <= 1) by lia.
  assert (H3 : 1 + Buffer.length (Buffer.encode "tx" Buffer.ascii ++ [0])
               <= Buffer.length [9; 9; 9; 9; 9]) by (vm_compute; easy).
  assert (H4 : Buffer.length [9; 9; 9; 9; 9] < 2 ^ 32) by reflexivity.
  split; [auto|].
  exact (proj1 (writeNullString_bytes "tx" Buffer.ascii)
           [9; 9; 9; 9; 9] 1 H1 H2 H3 H4).
Defined.

End StringWrites.

(** ** Hashes that are not hex *)

Section LenientHash.

Lemma splice_drop_after (d : Buffer.t) (w : Z) (bs : list Z) :
  0 <= w -> w + Buffer.length bs <= Buffer.length d ->
  drop (Z.to_nat w + List.length bs) (splice d w bs)
  = drop (Z.to_nat w + List.length bs) d.
Proof.
  intros Hw Hroom. unfold splice, Buffer.length in *.
  rewrite app_assoc. apply drop_app_length'.
  rewrite length_app, length_take. lia.
Qed.

(** X10.  [writeHash] checks the length of a string, not its characters:
    for every string of 64 characters, on a writer with room, the cursor
    advances by 32, but only the digit pairs before the first character that
    is not a hex digit are decoded and written; when there is such a
    character fewer than 32 bytes are written, and the bytes after them keep
    whatever the buffer held. *)
Theorem writeHash_unvalidated (str : string) (d : Buffer.t) (w : Z) :
  Buffer.strlen str = 64 ->
  0 <= w -> w + 32 <= Buffer.length d -> Buffer.length d < 2 ^ 32 ->
  writeHash (HashString str) (live d w)
  = Done tt (live (splice d w (Buffer.hex_decode str)) (w + 32))
  /\ (List.length (Buffer.hex_decode str) <= 32)%nat
  /\ (is_hex str = false -> (List.length (Buffer.hex_decode str) < 32)%nat)
  /\ drop (Z.to_nat w + List.length (Buffer.hex_decode str))
       (splice d w (Buffer.hex_decode str))
     = drop (Z.to_nat w + List.length (Buffer.hex_decode str)) d.
Proof.
  intros Hlen Hw Hroom Hmax.
  destruct (hex_decode_bound (String.length str) str (Nat.le_refl _))
    as [Hle Hlt].
  unfold Buffer.strlen in Hlen.
  assert (Hle' : (List.length (Buffer.hex_decode str) <= 32)%nat) by lia.
  split; [|split; [exact Hle' | split]].
  - unfold writeHash, mbind, method_bind, bind, assert.
    unfold Buffer.strlen. rewrite Hlen. cbn [Z.eqb Pos.eqb].
    unfold mret, method_ret, ret, live. cbn [data written num].
    unfold Buffer.write_hex. rewrite toUint32_small by lia.
    unfold Buffer.strlen. rewrite Hlen.
    destruct (Z.ltb_spec (Buffer.length d - w) 0); [lia|].
    destruct (Z.ltb_spec (Buffer.length d) w); [lia|].
    cbn [andb Z.odd]. rewrite take_ge by lia.
    rewrite list_inserts_splice; [reflexivity | lia | lia].
  - intros Hhex. specialize (Hlt Hhex). lia.
  - apply splice_drop_after; [lia|]. unfold Buffer.length in *. lia.
Qed.

Lemma writeHash_unvalidated_witness :
  (Buffer.strlen not_hex_hash = 64 /\ 0 <= 0
   /\ 0 + 32 <= Buffer.length (repeat 9 32)
   /\ Buffer.length (repeat 9 32) < 2 ^ 32)
  /\ writeHash (HashString not_hex_hash) (live (repeat 9 32) 0)
     = Done tt (live (repeat 9 32) 32)
  /\ (writeHash (HashString not_hex_hash) ;; render false) (create (repeat 9 32))
     = Done (repeat 9 32) destroyed.
Proof.
  assert (H1 : Buffer.strlen not_hex_hash = 64) by reflexivity.
  assert (H2 : 0 <= 0) by lia.
  assert (H3 : 0 + 32 <= Buffer.length (repeat 9 32)) by (vm_compute; easy).
  assert (H4 : Buffer.length (repeat 9 32) < 2 ^ 32) by reflexivity.
  split; [auto|].
  pose proof (proj1 (writeHash_unvalidated not_hex_hash (repeat 9 32) 0
                       H1 H2 H3 H4)) as Hcall.
  split; [exact Hcall|].
  unfold mbind, method_bind, bind. change (create (repeat 9 32))
    with (live (repeat 9 32) 0).
  rewrite Hcall. reflexivity.
Defined.

End LenientHash.

(** ** What no method does *)

Section Capacity.
Context `{Digest}.

Lemma copy_length (src d d' : Buffer.t) (w start end_ : Z) :
  Buffer.copy src d w start end_ = Some d' -> List.length d' = List.length d.
Proof.
  unfold Buffer.copy.
  destruct (_ || _); [discriminate|].
  destruct (_ || _); [now intros [= <-]|].
  intros [= <-]. apply length_inserts.
Qed.

Lemma fill_length (d d' : Buffer.t) (val start end_ : Z) :
  Buffer.fill d val start end_ = Some d' -> List.length d' = List.length d.
Proof.
  unfold Buffer.fill.
  destruct (_ || _); [discriminate|].
  destruct (_ <=? _); [now intros [= <-]|].
  intros [= <-]. apply length_inserts.
Qed.

Lemma write_length (d d' : Buffer.t) (s : string) (w : Z)
    (enc : Buffer.text_encoding) :
  Buffer.write d s w enc = inr d' -> List.length d' = List.length d.
Proof.
  destruct enc; cbn [Buffer.write]; unfold Buffer.write_hex; cbv zeta;
    repeat match goal with
           | |- context [if ?c then _ else _] => destruct c
           end;
    try discriminate; intros [= <-]; apply length_inserts.
Qed.

Lemma store_length (bs : list Z) (i : Z) :
  forall d : Buffer.t, List.length (Buffer.store d i bs) = List.length d.
Proof.
  unfold Buffer.store. generalize (seq 0 (List.length bs)). intros ns.
  generalize (combine ns bs). clear ns bs. intros ps.
  induction ps as [|p ps IH]; intros d; [reflexivity|].
  cbn [fold_left]. rewrite IH. apply set_length.
Qed.

(** A call on [this.data] keeps the capacity when the primitive keeps the
    length. *)
Lemma on_data_capacity (f : Buffer.t -> Z -> Buffer.t * Z) (s : StaticWriter) :
  (forall d off, List.length (fst (f d off)) = List.length d) ->
  capacity (state_of (on_data f s)) = capacity s.
Proof.
  intros Hf. unfold on_data, capacity. destruct (data s) as [d|] eqn:Hd.
  - specialize (Hf d (num (written s))).
    destruct (f d (num (written s))) as [d' off]. cbn in *. now rewrite Hf.
  - cbn. now rewrite Hd.
Qed.

Lemma bind_capacity {A B} (m : method A) (k : A -> method B) (s : StaticWriter) :
  capacity (state_of (m s)) = capacity s ->
  (forall a s', capacity (state_of (k a s')) = capacity s') ->
  capacity (state_of (bind m k s)) = capacity s.
Proof.
  intros Hm Hk. unfold bind. destruct (m s) as [a s'|e s']; cbn in *.
  - now rewrite Hk.
  - exact Hm.
Qed.

Lemma assert_capacity (cond : bool) (message : option string) (s : StaticWriter) :
  capacity (state_of (assert cond message s)) = capacity s.
Proof. destruct cond; reflexivity. Qed.

Lemma call_int_capacity (op : int_write) (v : Z) (s : StaticWriter) :
  capacity (state_of (call_int op v s)) = capacity s.
Proof.
  destruct op; apply on_data_capacity; intros d off;
    unfold Buffer.writeUInt8, Buffer.writeUInt16LE, Buffer.writeUInt16BE,
      Buffer.writeUInt32LE, Buffer.writeUInt32BE, Buffer.writeInt8,
      Buffer.writeInt16LE, Buffer.writeInt16BE, Buffer.writeInt32LE,
      Buffer.writeInt32BE; cbn [fst];
    now rewrite !set_length.
Qed.

Lemma writeVarint_capacity (v : Z) (s : StaticWriter) :
  capacity (state_of (writeVarint v s)) = capacity s.
Proof.
  apply on_data_capacity. intros d off. unfold encoding.writeVarint.
  cbn [fst]. apply store_length.
Qed.

Lemma writeBytes_capacity (value : Buffer.t) (s : StaticWriter) :
  capacity (state_of (writeBytes value s)) = capacity s.
Proof.
  unfold writeBytes, capacity. destruct (_ =? _); [reflexivity|].
  destruct (data s) as [d|] eqn:Hd; [|cbn; now rewrite Hd].
  destruct (Buffer.copy _ _ _ _ _) as [d'|] eqn:Hc; cbn.
  - now rewrite (copy_length _ _ _ _ _ _ Hc).
  - now rewrite Hd.
Qed.

Lemma copy_capacity (value : Buffer.t) (start end_ : Z) (s : StaticWriter) :
  capacity (state_of (copy value start end_ s)) = capacity s.
Proof.
  unfold copy, capacity. cbv zeta. destruct (_ =? _); [reflexivity|].
  destruct (data s) as [d|] eqn:Hd; [|cbn; now rewrite Hd].
  destruct (Buffer.copy _ _ _ _ _) as [d'|] eqn:Hc; cbn.
  - now rewrite (copy_length _ _ _ _ _ _ Hc).
  - now rewrite Hd.
Qed.

Lemma text_capacity (value : string) (enc : Buffer.text_encoding) (size : Z)
    (s : StaticWriter) :
  capacity
    (state_of
       (match data s with
        | None => Throw TypeError s
        | Some d =>
            match Buffer.write d value (num (written s)) enc with
            | inl Buffer.OutOfBounds => Throw RangeError s
            | inr d' =>
                Done tt {| data := Some d';
                           written := Some (num (written s) + size) |}
            end
        end))
  = capacity s.
Proof.
  unfold capacity. destruct (data s) as [d|] eqn:Hd; [|cbn; now rewrite Hd].
  destruct (Buffer.write _ _ _ _) as [[]|d'] eqn:Hw; cbn; rewrite ?Hd;
    try reflexivity.
  now rewrite (write_length _ _ _ _ _ Hw).
Qed.

Lemma writeString_capacity (value : string) (enc : Buffer.text_encoding)
    (s : StaticWriter) :
  capacity (state_of (writeString value enc s)) = capacity s.
Proof.
  unfold writeString. destruct (_ =? _); [reflexivity|]. apply text_capacity.
Qed.

Lemma writeHash_capacity (value : Hash) (s : StaticWriter) :
  capacity (state_of (writeHash value s)) = capacity s.
Proof.
  destruct value as [b|str]; unfold writeHash, mbind, method_bind;
    apply bind_capacity; try apply assert_capacity; intros _ s'.
  - apply writeBytes_capacity.
  - apply (text_capacity str Buffer.hex 32 s').
Qed.

Lemma writeChecksum_capacity (s : StaticWriter) :
  capacity (state_of (writeChecksum s)) = capacity s.
Proof.
  unfold writeChecksum, capacity.
  destruct (data s) as [d|] eqn:Hd; [|cbn; now rewrite Hd].
  destruct (Buffer.copy _ _ _ _ _) as [d'|] eqn:Hc; cbn.
  - now rewrite (copy_length _ _ _ _ _ _ Hc).
  - now rewrite Hd.
Qed.

Lemma fill_capacity (value size : Z) (s : StaticWriter) :
  capacity (state_of (fill value size s)) = capacity s.
Proof.
  unfold fill, mbind, method_bind. apply bind_capacity;
    [apply assert_capacity|]. intros _ s'.
  unfold capacity. destruct (_ =? _); [reflexivity|].
  destruct (data s') as [d|] eqn:Hd; [|cbn; now rewrite Hd].
  destruct (Buffer.fill _ _ _ _) as [d'|] eqn:Hf; cbn.
  - now rewrite (fill_length _ _ _ _ _ Hf).
  - now rewrite Hd.
Qed.

Lemma writeVarString_capacity (value : string) (enc : Buffer.text_encoding)
    (s : StaticWriter) :
  capacity (state_of (writeVarString value enc s)) = capacity s.
Proof.
  unfold writeVarString. destruct (_ =? _); [apply writeVarint_capacity|].
  cbv zeta. unfold mbind, method_bind. apply bind_capacity;
    [apply writeVarint_capacity|]. intros _ s'. apply text_capacity.
Qed.


End Capacity.


(** ** A destroyed writer *)

Section Destroyed.
Context `{Digest}.

Lemma encode_empty (enc : Buffer.text_encoding) : Buffer.encode EmptyString enc = [].
Proof. destruct enc; reflexivity. Qed.

(** X12.  On a writer whose buffer is gone ([data] is [null], after
    [destroy] or a successful [render()]), [render] and every write that
    would lay at least one byte throw a [TypeError] and leave the state as it
    is; [seek] still moves the cursor, counting [null] as 0, and [getSize]
    still returns it. *)
Theorem use_after_destroy (s : StaticWriter) :
  data s = None ->
  (forall keep, render keep s = Throw TypeError s)
  /\ (forall (x : write) (before : list Z),
        write_ok x = true -> bytes_of before x <> [] ->
        run_write x s = Throw TypeError s)
  /\ (forall offset,
        seek offset s
        = Done tt {| data := None;
                     written := Some (num (written s) + offset) |})
  /\ getSize s = Done (written s) s.
Proof.
  intros Hd. split; [|split; [|split]].
  - intros keep. unfold render. now rewrite Hd.
  - intros x before Hok Hne.
    destruct x as [op v|b|b a e|str enc|h|str enc| |v n];
      cbn [run_write write_ok bytes_of] in *.
    + destruct op;
        unfold call_int, writeU8, writeU16, writeU16BE, writeU32, writeU32BE,
          writeI8, writeI16, writeI16BE, writeI32, writeI32BE, on_data;
        now rewrite Hd.
    + unfold writeBytes. destruct b as [|x b]; [contradiction|].
      destruct (Z.eqb_spec (Buffer.length (x :: b)) 0) as [Hz|_].
      { unfold Buffer.length in Hz. cbn [List.length] in Hz. lia. }
      now rewrite Hd.
    + unfold copy. cbv zeta.
      destruct (Z.eqb_spec (e - a) 0) as [Hz|_].
      { rewrite Hz in Hne. now contradiction Hne. }
      now rewrite Hd.
    + unfold writeString.
      destruct (Z.eqb_spec (Buffer.strlen str) 0) as [Hz|_].
      { destruct str; [now rewrite encode_empty in Hne|].
        unfold Buffer.strlen in Hz. cbn [String.length] in Hz. lia. }
      now rewrite Hd.
    + destruct h as [b|str]; unfold writeHash, mbind, method_bind, bind, assert.
      * rewrite Hok. unfold mret, method_ret, ret. apply Z.eqb_eq in Hok.
        unfold writeBytes. rewrite Hok. cbn [Z.eqb]. now rewrite Hd.
      * apply andb_true_iff in Hok. destruct Hok as [Hlen _]. rewrite Hlen.
        unfold mret, method_ret, ret. now rewrite Hd.
    + unfold writeNullString, mbind, method_bind, bind, writeString.
      destruct (Z.eqb_spec (Buffer.strlen str) 0) as [Hz|_].
      * unfold writeU8, on_data. now rewrite Hd.
      * now rewrite Hd.
    + unfold writeChecksum. now rewrite Hd.
    + unfold fill, mbind, method_bind, bind, assert. rewrite Hok.
      unfold mret, method_ret, ret.
      destruct (Z.eqb_spec n 0) as [->|_]; [now contradiction Hne|].
      now rewrite Hd.
  - intros offset. unfold seek. now rewrite Hd.
  - reflexivity.
Qed.

End Destroyed.

Lemma use_after_destroy_witness :
  (data destroyed = None /\ write_ok (WBytes [1]) = true
   /\ @bytes_of sum_Digest [] (WBytes [1]) <> [])
  /\ render false destroyed = Throw TypeError destroyed
  /\ @run_write sum_Digest (WBytes [1]) destroyed = Throw TypeError destroyed
  /\ seek 5 destroyed = Done tt {| data := None; written := Some 5 |}.
Proof.
  assert (H1 : data destroyed = None) by reflexivity.
  assert (H2 : write_ok (WBytes [1]) = true) by reflexivity.
  assert (H3 : @bytes_of sum_Digest [] (WBytes [1]) <> []) by discriminate.
  split; [auto|].
  destruct (@use_after_destroy sum_Digest destroyed H1)
    as (Hrender & Hwrite & Hseek & _).
  split; [exact (Hrender false)|].
  split; [exact (Hwrite (WBytes [1]) [] H2 H3) | exact (Hseek 5)].
Defined.

(** ** Seeking *)

Section Seeking.
Context `{Digest}.

(** C10, as the code has it.  For every integer [delta], negative or
    leading past the end of the buffer alike (cursor, [delta] and their sum
    being safe integers), [seek delta] sets the cursor to its previous value
    plus [delta], leaves the buffer as it is and does not fail.  The writer
    itself looks at the cursor in one place only, the assertion of [render],
    which succeeds after the seek exactly when the new cursor equals the
    capacity; whether any other method fails an assertion does not depend on
    the cursor, and [writeBytes] at a cursor at or past the end stores
    nothing and returns.  But [render] is not the only place where the
    mismatch shows: the buffer refuses some stores outside it, so that after
    a seek [fill] of a positive size over a range that leaves the buffer,
    [writeString] of a non-empty string at a cursor past the end, and
    [writeBytes] of a non-empty buffer at a negative cursor throw a
    [RangeError], the writer staying as the seek left it. *)
Theorem seek_unchecked (delta w : Z) :
  safe w -> safe delta -> safe (w + delta) ->
  (forall s,
     num (written s) = w ->
     seek delta s
     = Done tt {| data := data s; written := Some (w + delta) |})
  /\ (forall keep d,
        (seek delta ;; render keep) (live d w)
        = if w + delta =? Buffer.length d
          then Done d (if keep then live d (w + delta) else destroyed)
          else Throw (AssertionError None) (live d (w + delta)))
  /\ (forall c d,
        assertion_of ((seek delta ;; run_call c) (live d w))
        = assertion_of (run_call c (live d w)))
  /\ (forall value d,
        Buffer.length d <= w + delta ->
        (seek delta ;; writeBytes value) (live d w)
        = Done tt (live d (w + delta + Buffer.length value)))
  /\ (forall value size d,
        0 < size ->
        w + delta < 0 \/ Buffer.length d < w + delta + size ->
        (seek delta ;; fill value size) (live d w)
        = Throw RangeError (live d (w + delta)))
  /\ (forall value enc d,
        value <> EmptyString ->
        Buffer.length d < w + delta < 2 ^ 32 ->
        (seek delta ;; writeString value enc) (live d w)
        = Throw RangeError (live d (w + delta)))
  /\ (forall value d,
        value <> [] ->
        w + delta < 0 ->
        (seek delta ;; writeBytes value) (live d w)
        = Throw RangeError (live d (w + delta))).
Proof.
  intros _ _ _.
  assert (Hseek : forall (A : Type) (m : method A) d,
            (seek delta ;; m) (live d w) = m (live d (w + delta)))
    by reflexivity.
  split; [|split; [|split; [|split; [|split; [|split]]]]].
  - intros s <-. reflexivity.
  - intros keep d. apply seek_then_render.
  - intros c d. rewrite Hseek. apply assertion_cursor_independent.
  - intros value d Hpast. rewrite Hseek.
    assert (Hw : 0 <= w + delta) by (unfold Buffer.length in Hpast; lia).
    rewrite writeBytes_clip by exact Hw. now rewrite clip_past.
  - intros value size d Hsize Hout. rewrite Hseek.
    unfold fill, mbind, method_bind, bind, assert.
    destruct (Z.leb_spec 0 size); [|lia].
    unfold ret. destruct (Z.eqb_spec size 0); [lia|].
    unfold live. cbn [data written num]. unfold Buffer.fill.
    destruct (Z.ltb_spec (w + delta) 0) as [Hneg|Hpos]; [reflexivity|].
    destruct (Z.ltb_spec (Buffer.length d) (w + delta + size)); [reflexivity|].
    lia.
  - intros value enc d Hne Hpast. rewrite Hseek.
    pose proof (strlen_pos value Hne) as Hpos. unfold writeString.
    destruct (Z.eqb_spec (Buffer.strlen value) 0); [lia|].
    unfold live. cbn [data written num].
    now rewrite write_past_end.
  - intros value d Hne Hneg. rewrite Hseek. unfold writeBytes.
    destruct (Z.eqb_spec (Buffer.length value) 0) as [Hz|_].
    { destruct value; [contradiction|].
      unfold Buffer.length in Hz. cbn [List.length] in Hz. lia. }
    unfold live. cbn [data written num].
    now rewrite copy_negative.
Qed.

End Seeking.

Lemma seek_unchecked_witness :
  (safe 0 /\ safe 3 /\ safe (0 + 3) /\ 0 < 1
   /\ (0 + 3 < 0 \/ Buffer.length [9; 9] < 0 + 3 + 1))
  /\ seek 3 (live [9; 9] 0) = Done tt (live [9; 9] 3)
  /\ (seek 3 ;; render false) (live [9; 9] 0)
     = Throw (AssertionError None) (live [9; 9] 3)
  /\ (seek 3 ;; fill 7 1) (live [9; 9] 0) = Throw RangeError (live [9; 9] 3).
Proof.
  assert (H0 : safe 0) by (unfold safe, MAX_SAFE_INTEGER; lia).
  assert (H3 : safe 3) by (unfold safe, MAX_SAFE_INTEGER; lia).
  assert (H4 : 0 < 1) by lia.
  assert (H5 : 0 + 3 < 0 \/ Buffer.length [9; 9] < 0 + 3 + 1)
    by (right; reflexivity).
  split; [auto 6|].
  destruct (@seek_unchecked sum_Digest 3 0 H0 H3 H3)
    as (Hseek & Hrender & _ & _ & Hfill & _).
  split; [exact (Hseek (live [9; 9] 0) eq_refl)|].
  split; [exact (Hrender false [9; 9])|].
  exact (Hfill 7 1 [9; 9] H4 H5).
Defined.

(** [render] is not the only place where a cursor moved by [seek] is found
    out: on a buffer of two bytes, [fill(7, 1)] succeeds at cursor 0 and
    throws a [RangeError] after [seek(3)]; so do [writeString] after the same
    seek and [writeBytes] after a seek to a negative cursor, all before any
    [render]. *)
Lemma seek_detected_elsewhere_counterexample :
  fill 7 1 (live [9; 9] 0) = Done tt (live [7; 9] 1)
  /\ (seek 3 ;; fill 7 1) (live [9; 9] 0) = Throw RangeError (live [9; 9] 3)
  /\ (seek 3 ;; writeString "a" Buffer.utf8) (live [9; 9] 0)
     = Throw RangeError (live [9; 9] 3)
  /\ (seek (-1) ;; writeBytes [1]) (live [9; 9] 0)
     = Throw RangeError (live [9; 9] (-1)).
Proof. repeat split; reflexivity. Qed.

(** ** Seeking back *)

Section BackPatch.

(** X13.  [seek] allows back-patching: on a fresh writer of the size of a
    header and a body, skipping the header with [seek], writing the body,
    seeking back to the start, writing the header and seeking past the body
    again leaves a writer that renders to the header followed by the
    body. *)
Theorem seek_back_patch (header body mem : Buffer.t) :
  safe (Buffer.length mem) ->
  Buffer.length mem = Buffer.length header + Buffer.length body ->
  (seek (Buffer.length header) ;;
   writeBytes body ;;
   seek (- (Buffer.length header + Buffer.length body)) ;;
   writeBytes header ;;
   seek (Buffer.length body) ;;
   render false) (create mem)
  = Done (header ++ body) destroyed.
Proof.
  intros _ Hlen.
  assert (Hh : 0 <= Buffer.length header) by (unfold Buffer.length; lia).
  assert (Hb : 0 <= Buffer.length body) by (unfold Buffer.length; lia).
  unfold mbind, method_bind, bind.
  change (seek (Buffer.length header) (create mem))
    with (Done tt (live mem (0 + Buffer.length header))).
  cbv iota beta. rewrite Z.add_0_l.
  rewrite writeBytes_live by lia.
  change (seek (- (Buffer.length header + Buffer.length body))
            (live (splice mem (Buffer.length header) body)
               (Buffer.length header + Buffer.length body)))
    with (Done tt (live (splice mem (Buffer.length header) body)
                     (Buffer.length header + Buffer.length body
                      + - (Buffer.length header + Buffer.length body)))).
  cbv iota beta. rewrite Z.add_opp_diag_r.
  assert (Hs1 : splice mem (Buffer.length header) body
                = take (List.length header) mem ++ body).
  { unfold splice, Buffer.length in *. rewrite Nat2Z.id.
    rewrite (drop_ge mem) by lia. now rewrite app_nil_r. }
  rewrite Hs1.
  rewrite writeBytes_live;
    [| lia
     | unfold Buffer.length in *; rewrite length_app, length_take; lia].
  change (seek (Buffer.length body)
            (live (splice (take (List.length header) mem ++ body) 0 header)
               (0 + Buffer.length header)))
    with (Done tt (live (splice (take (List.length header) mem ++ body) 0 header)
                     (0 + Buffer.length header + Buffer.length body))).
  cbv iota beta.
  assert (Hs2 : splice (take (List.length header) mem ++ body) 0 header
                = header ++ body).
  { unfold splice. change (Z.to_nat 0) with 0%nat.
    rewrite take_0, Nat.add_0_l. cbn [app]. f_equal.
    apply drop_app_length'. rewrite length_take. unfold Buffer.length in *. lia. }
  rewrite Hs2, render_live.
  destruct (Z.eqb_spec (0 + Buffer.length header + Buffer.length body)
              (Buffer.length (header ++ body))) as [_|Hne]; [reflexivity|].
  exfalso. apply Hne. unfold Buffer.length. rewrite length_app. lia.
Qed.

Lemma seek_back_patch_witness :
  (safe (Buffer.length [9; 9; 9; 9; 9])
   /\ Buffer.length [9; 9; 9; 9; 9]
      = Buffer.length [1; 2] + Buffer.length [3; 4; 5])
  /\ (seek (Buffer.length [1; 2]) ;;
      writeBytes [3; 4; 5] ;;
      seek (- (Buffer.length [1; 2] + Buffer.length [3; 4; 5])) ;;
      writeBytes [1; 2] ;;
      seek (Buffer.length [3; 4; 5]) ;;
      render false) (create [9; 9; 9; 9; 9])
     = Done [1; 2; 3; 4; 5] destroyed.
Proof.
  assert (H0 : safe (Buffer.length [9; 9; 9; 9; 9]))
    by (vm_compute; split; discriminate).
  assert (H1 : Buffer.length [9; 9; 9; 9; 9]
               = Buffer.length [1; 2] + Buffer.length [3; 4; 5])
    by reflexivity.
  split; [auto|].
  exact (seek_back_patch [1; 2] [3; 4; 5] [9; 9; 9; 9; 9] H0 H1).
Defined.

End BackPatch.
